(** * tldr-backend: license lifecycle and request gating

    A shallow embedding of [tldr-backend/server.js] (and of its two later
    revisions, which share the helpers and differ in the handlers).

    - JavaScript strings are sequences of UTF-16 code units: [list N].
    - The Supabase tables [licenses] and [usage] are lists of rows; a query
      answers with a [{ data, error }] pair and never throws, as supabase-js
      does.
    - Everything a handler does to the outside (store queries, the call to
      the completion API, the e-mail) is recorded in a trace, so that "the
      relay is never invoked" is a statement about that trace. Console output
      is not modelled.
    - [try]/[catch] is an error monad over that state: a throw keeps the
      effects performed so far. A handler that ends in a throw sends no
      response (Express 4 does not catch a rejected async handler).
    - The fields of a request body or query are strings, or absent. *)

From Stdlib Require Import List NArith Bool Arith Lia String Ascii.
From Stdlib.Strings Require Import Byte.
Import ListNotations.

Set Implicit Arguments.
Set Warnings "-register-all".


(** ** JavaScript strings *)

Module JS.

Definition jsstring := list N.

(** A string literal of the source, ASCII only. *)
Definition lit (s : string) : jsstring :=
  map (fun a => N_of_ascii a) (list_ascii_of_string s).

Definition eqb (a b : jsstring) : bool :=
  if list_eq_dec N.eq_dec a b then true else false.

(** WhiteSpace and LineTerminator of ECMAScript: what [String.prototype.trim]
    removes and what [\s] matches. *)
Definition is_space (c : N) : bool :=
  ((9 <=? c) && (c <=? 13)          (* TAB LF VT FF CR *)
   || (c =? 32)                      (* SP *)
   || (c =? 160)                     (* NBSP *)
   || (c =? 5760)                    (* U+1680 *)
   || ((8192 <=? c) && (c <=? 8202)) (* U+2000 .. U+200A *)
   || (c =? 8232) || (c =? 8233)     (* LS PS *)
   || (c =? 8239) || (c =? 8287)     (* U+202F U+205F *)
   || (c =? 12288)                   (* U+3000 *)
   || (c =? 65279))%N.               (* U+FEFF *)

Fixpoint trimStart (s : jsstring) : jsstring :=
  match s with
  | c :: s' => if is_space c then trimStart s' else s
  | [] => []
  end.

Definition trimEnd (s : jsstring) : jsstring :=
  rev (trimStart (rev s)).

(** [s.trim()] *)
Definition trim (s : jsstring) : jsstring := trimEnd (trimStart s).

(** [s.slice(0, n)] *)
Definition slice0 (n : N) (s : jsstring) : jsstring :=
  firstn (N.to_nat n) s.

(** Does [s] start with [p], letters compared without case (the [i] flag
    on an ASCII pattern)? On success the rest of [s] is returned. *)
Definition fold_case (c : N) : N :=
  if ((97 <=? c) && (c <=? 122))%N then (c - 32)%N else c.

Fixpoint strip_prefix_ci (p s : jsstring) : option jsstring :=
  match p, s with
  | [], _ => Some s
  | a :: p', b :: s' =>
      if (fold_case a =? fold_case b)%N then strip_prefix_ci p' s' else None
  | _ :: _, [] => None
  end.

(** [s.toUpperCase()] on the ASCII range (it is only applied to the output
    of [toString('hex')]). *)
Definition toUpperCase (s : jsstring) : jsstring := map fold_case s.

End JS.

Export JS.

(** ** The code-fence normalisation of /summarise

    [content.trim().replace(/^```json\s*/i, '').replace(/^```\s*/i, '')
            .replace(/```\s*$/i, '').trim()] *)

Module Fence.

Definition backtick : N := 96%N.
Definition fence : jsstring := [backtick; backtick; backtick].

(** [s.replace(/^P\s*/i, '')] for a literal [P]: anchored at the start, [\s*]
    is greedy and nothing follows it, so it takes every leading space. *)
Definition replace_leading (p : jsstring) (s : jsstring) : jsstring :=
  match strip_prefix_ci p s with
  | Some rest => trimStart rest
  | None => s
  end.

(** Does [/```\s*$/] match at the very start of [s]? *)
Definition closes_here (s : jsstring) : bool :=
  match strip_prefix_ci fence s with
  | Some rest => forallb is_space rest
  | None => false
  end.

(** [s.replace(/```\s*$/i, '')]: the regular expression is tried at each
    position from the left; the first position where it matches is cut, up
    to the end of the string. *)
Fixpoint replace_trailing (s : jsstring) : jsstring :=
  if closes_here s then []
  else match s with
       | c :: s' => c :: replace_trailing s'
       | [] => []
       end.

Definition strip_fences (content : jsstring) : jsstring :=
  trim (replace_trailing
          (replace_leading fence
             (replace_leading (fence ++ lit "json") (trim content)))).

End Fence.

(** ** [JSON.parse]

    The built-in is modelled by the JSON grammar (ECMA-404): a lexer that reads
    one code unit at a time, and a push-down parser over its tokens. Both are
    total and structurally recursive. The result is the syntax tree of the
    text; the JavaScript value is a function of that tree. *)

Module JSON.

Inductive json :=
| JNull
| JBool (b : bool)
| JNumber (lexeme : jsstring)
| JString (s : jsstring)
| JArray (elems : list json)
| JObject (members : list (jsstring * json)).

Inductive token :=
| TLBrace | TRBrace | TLBracket | TRBracket | TColon | TComma
| TString (s : jsstring)
| TNumber (lexeme : jsstring)
| TTrue | TFalse | TNull.

(** *** Lexer *)

Inductive num_state :=
| NMinus | NZero | NInt | NDot | NFrac | NExp | NExpSign | NExpDigits.

Inductive literal := LitTrue | LitFalse | LitNull.

Inductive lex_state :=
| LStart
| LString (acc : jsstring)                  (* content so far, reversed *)
| LEscape (acc : jsstring)                  (* after a backslash *)
| LUnicode (acc : jsstring) (n : nat) (v : N) (* after \u and n hex digits *)
| LNumber (st : num_state) (acc : jsstring)
| LLiteral (l : literal) (pos : nat).       (* pos letters already read *)

Definition is_json_ws (c : N) : bool :=
  ((c =? 9) || (c =? 10) || (c =? 13) || (c =? 32))%N.

Definition is_digit (c : N) : bool := ((48 <=? c) && (c <=? 57))%N.

Definition hex_value (c : N) : option N :=
  if is_digit c then Some (c - 48)%N
  else if ((97 <=? c) && (c <=? 102))%N then Some (c - 87)%N
  else if ((65 <=? c) && (c <=? 70))%N then Some (c - 55)%N
  else None.

Definition literal_text (l : literal) : jsstring :=
  match l with
  | LitTrue => lit "true"
  | LitFalse => lit "false"
  | LitNull => lit "null"
  end.

Definition literal_token (l : literal) : token :=
  match l with
  | LitTrue => TTrue
  | LitFalse => TFalse
  | LitNull => TNull
  end.

Definition num_accepting (st : num_state) : bool :=
  match st with
  | NZero | NInt | NFrac | NExpDigits => true
  | NMinus | NDot | NExp | NExpSign => false
  end.

Definition is_e (c : N) : bool := ((c =? 101) || (c =? 69))%N.

Definition num_step (st : num_state) (c : N) : option num_state :=
  match st with
  | NMinus =>
      if (c =? 48)%N then Some NZero
      else if is_digit c then Some NInt else None
  | NZero =>
      if (c =? 46)%N then Some NDot
      else if is_e c then Some NExp else None
  | NInt =>
      if is_digit c then Some NInt
      else if (c =? 46)%N then Some NDot
      else if is_e c then Some NExp else None
  | NDot => if is_digit c then Some NFrac else None
  | NFrac =>
      if is_digit c then Some NFrac
      else if is_e c then Some NExp else None
  | NExp =>
      if ((c =? 43) || (c =? 45))%N then Some NExpSign
      else if is_digit c then Some NExpDigits else None
  | NExpSign => if is_digit c then Some NExpDigits else None
  | NExpDigits => if is_digit c then Some NExpDigits else None
  end.

(** A code unit met between two tokens. *)
Definition start_char (c : N) : option (lex_state * list token) :=
  if is_json_ws c then Some (LStart, [])
  else if (c =? 123)%N then Some (LStart, [TLBrace])
  else if (c =? 125)%N then Some (LStart, [TRBrace])
  else if (c =? 91)%N then Some (LStart, [TLBracket])
  else if (c =? 93)%N then Some (LStart, [TRBracket])
  else if (c =? 58)%N then Some (LStart, [TColon])
  else if (c =? 44)%N then Some (LStart, [TComma])
  else if (c =? 34)%N then Some (LString [], [])
  else if (c =? 45)%N then Some (LNumber NMinus [c], [])
  else if (c =? 48)%N then Some (LNumber NZero [c], [])
  else if is_digit c then Some (LNumber NInt [c], [])
  else if (c =? 116)%N then Some (LLiteral LitTrue 1, [])
  else if (c =? 102)%N then Some (LLiteral LitFalse 1, [])
  else if (c =? 110)%N then Some (LLiteral LitNull 1, [])
  else None.

Definition escape_char (c : N) : option N :=
  if (c =? 34)%N then Some 34%N           (* quote *)
  else if (c =? 92)%N then Some 92%N      (* backslash *)
  else if (c =? 47)%N then Some 47%N      (* slash *)
  else if (c =? 98)%N then Some 8%N       (* b: backspace *)
  else if (c =? 102)%N then Some 12%N     (* f: form feed *)
  else if (c =? 110)%N then Some 10%N     (* n: line feed *)
  else if (c =? 114)%N then Some 13%N     (* r: carriage return *)
  else if (c =? 116)%N then Some 9%N      (* t: tab *)
  else None.

Definition step (st : lex_state) (c : N) : option (lex_state * list token) :=
  match st with
  | LStart => start_char c
  | LString acc =>
      if (c =? 34)%N then Some (LStart, [TString (rev acc)])
      else if (c =? 92)%N then Some (LEscape acc, [])
      else if (c <? 32)%N then None
      else Some (LString (c :: acc), [])
  | LEscape acc =>
      if (c =? 117)%N then Some (LUnicode acc 0 0%N, [])
      else match escape_char c with
           | Some d => Some (LString (d :: acc), [])
           | None => None
           end
  | LUnicode acc n v =>
      match hex_value c with
      | Some d =>
          let v' := (16 * v + d)%N in
          if (n =? 3)%nat then Some (LString (v' :: acc), [])
          else Some (LUnicode acc (S n) v', [])
      | None => None
      end
  | LNumber ns acc =>
      match num_step ns c with
      | Some ns' => Some (LNumber ns' (c :: acc), [])
      | None =>
          if num_accepting ns then
            match start_char c with
            | Some (st', ts) => Some (st', TNumber (rev acc) :: ts)
            | None => None
            end
          else None
      end
  | LLiteral l pos =>
      match nth_error (literal_text l) pos with
      | Some x =>
          if (c =? x)%N then
            if (S pos =? List.length (literal_text l))%nat
            then Some (LStart, [literal_token l])
            else Some (LLiteral l (S pos), [])
          else None
      | None => None
      end
  end.

(** At the end of the text. *)
Definition finish (st : lex_state) : option (list token) :=
  match st with
  | LStart => Some []
  | LNumber ns acc =>
      if num_accepting ns then Some [TNumber (rev acc)] else None
  | _ => None
  end.

Fixpoint lex_from (st : lex_state) (s : jsstring) : option (list token) :=
  match s with
  | [] => finish st
  | c :: s' =>
      match step st c with
      | Some (st', ts) =>
          match lex_from st' s' with
          | Some rest => Some (ts ++ rest)
          | None => None
          end
      | None => None
      end
  end.

Definition lex (s : jsstring) : option (list token) := lex_from LStart s.

(** *** Parser *)

(** The container being filled. *)
Inductive frame :=
| FArray (done : list json)                                 (* reversed *)
| FObject (done : list (jsstring * json)) (key : jsstring). (* reversed *)

Inductive parse_state :=
| PValue (stk : list frame)            (* a value must follow *)
| PArrayFirst (stk : list frame)       (* after '[': a value or ']' *)
| PObjectFirst (stk : list frame)      (* after '{': a key or '}' *)
| PKey (done : list (jsstring * json)) (stk : list frame)
                                       (* after ',' in an object *)
| PColon (done : list (jsstring * json)) (key : jsstring) (stk : list frame)
| PAfter (v : json) (stk : list frame). (* v is complete *)

Definition open_value (t : token) (stk : list frame) : option parse_state :=
  match t with
  | TNull => Some (PAfter JNull stk)
  | TTrue => Some (PAfter (JBool true) stk)
  | TFalse => Some (PAfter (JBool false) stk)
  | TNumber n => Some (PAfter (JNumber n) stk)
  | TString s => Some (PAfter (JString s) stk)
  | TLBracket => Some (PArrayFirst stk)
  | TLBrace => Some (PObjectFirst stk)
  | TRBrace | TRBracket | TColon | TComma => None
  end.

Definition shift (st : parse_state) (t : token) : option parse_state :=
  match st with
  | PValue stk => open_value t stk
  | PArrayFirst stk =>
      match t with
      | TRBracket => Some (PAfter (JArray []) stk)
      | _ => open_value t (FArray [] :: stk)
      end
  | PObjectFirst stk =>
      match t with
      | TRBrace => Some (PAfter (JObject []) stk)
      | TString k => Some (PColon [] k stk)
      | _ => None
      end
  | PKey done stk =>
      match t with
      | TString k => Some (PColon done k stk)
      | _ => None
      end
  | PColon done k stk =>
      match t with
      | TColon => Some (PValue (FObject done k :: stk))
      | _ => None
      end
  | PAfter v [] => None
  | PAfter v (FArray done :: stk) =>
      match t with
      | TComma => Some (PValue (FArray (v :: done) :: stk))
      | TRBracket => Some (PAfter (JArray (rev (v :: done))) stk)
      | _ => None
      end
  | PAfter v (FObject done k :: stk) =>
      match t with
      | TComma => Some (PKey ((k, v) :: done) stk)
      | TRBrace => Some (PAfter (JObject (rev ((k, v) :: done))) stk)
      | _ => None
      end
  end.

Fixpoint parse_from (st : parse_state) (ts : list token) : option json :=
  match ts with
  | [] => match st with PAfter v [] => Some v | _ => None end
  | t :: ts' =>
      match shift st t with
      | Some st' => parse_from st' ts'
      | None => None
      end
  end.

(** [JSON.parse(text)]; [None] is the SyntaxError. *)
Definition parse (text : jsstring) : option json :=
  match lex text with
  | Some ts => parse_from (PValue []) ts
  | None => None
  end.

End JSON.

(** ** The process and its surroundings *)

Module Backend.

(** *** The two tables of supabase-setup.sql

    The [id] columns (generated UUIDs) are never read by the server and are
    left out. *)

Record License := {
  key : jsstring;                  (* TEXT UNIQUE NOT NULL *)
  email : option jsstring;
  stripe_session_id : jsstring;
  active : bool;
  created_at : jsstring
}.

Record Usage := {
  license_key : jsstring;
  usage_created_at : jsstring
}.

Record Tables := {
  licenses : list License;
  usage : list Usage
}.

(** What a supabase-js query resolves to: [{ data, error }]. *)
Inductive pg_error :=
| NotSingleRow       (* .single() on zero or several rows *)
| UniqueViolation    (* duplicate value in a UNIQUE column *)
| Unavailable.       (* the request to the store failed *)

Record query_result (A : Type) := {
  data : option A;
  error : option pg_error
}.
Arguments data {A} _.
Arguments error {A} _.

(** *** What the server exchanges with the completion API *)

Record relay_request := {
  rq_model : jsstring;
  rq_max_tokens : N;
  rq_system : jsstring;
  rq_user : jsstring
}.

Inductive response :=
| NotOk (err : option (option jsstring))
    (* !response.ok; [None]: the body is not JSON or is null,
       [Some m]: m is [err.error?.message] *)
| Ok (content : option jsstring).
    (* response.ok; [Some c]: the body is JSON and
       [data.choices[0].message.content] is the string c *)

Inductive fetch_outcome :=
| FetchFails                    (* fetch rejects: the API was not reached *)
| Fetched (r : response).

Inductive mail_outcome :=
| MailNoClient       (* new Resend(undefined) throws *)
| MailThrows         (* emails.send rejects *)
| MailRefused        (* emails.send resolves to { error } *)
| MailSent.

(** *** Effects *)

Inductive event :=
| ESelectLicense (k : jsstring)
| EInsertLicense (row : License)
| EInsertUsage (row : Usage)
| ERelay (rq : relay_request)
| EMail (to : option jsstring) (licenseKey : jsstring).

Record World := {
  db : Tables;
  trace : list event;     (* oldest first *)
  drawn : nat             (* random bytes handed out so far *)
}.

(** What the surroundings answer during one request. *)
Record Env := {
  entropy : nat -> byte;            (* the i-th byte of crypto.randomBytes *)
  clock : jsstring;                 (* new Date().toISOString() *)
  SUPABASE_URL : bool;              (* are the store's settings present? *)
  OPENROUTER_MODEL : option jsstring;
  select_fails : bool;
  insert_license_fails : bool;
  insert_usage_fails : bool;
  relay : fetch_outcome;
  mailer : mail_outcome
}.

Inductive exn :=
| TypeError | SyntaxError | NetworkError | ConfigError | MailError.

Inductive outcome (A : Type) :=
| Val (a : A)
| Throw (e : exn).
Arguments Val {A} a.
Arguments Throw {A} e.

Definition M (A : Type) : Type := Env -> World -> outcome A * World.

Definition ret {A} (a : A) : M A := fun _ w => (Val a, w).

Definition bind {A B} (m : M A) (k : A -> M B) : M B :=
  fun env w =>
    match m env w with
    | (Val a, w') => k a env w'
    | (Throw e, w') => (Throw e, w')
    end.

Definition throw {A} (e : exn) : M A := fun _ w => (Throw e, w).

(** [try { m } catch (err) { h }] *)
Definition try_catch {A} (m : M A) (h : exn -> M A) : M A :=
  fun env w =>
    match m env w with
    | (Val a, w') => (Val a, w')
    | (Throw e, w') => h e env w'
    end.

Definition ask : M Env := fun env w => (Val env, w).

Definition emit (e : event) : M unit :=
  fun _ w =>
    (Val tt, {| db := db w; trace := trace w ++ [e]; drawn := drawn w |}).

Definition read_db : M Tables := fun _ w => (Val (db w), w).

Definition write_db (t : Tables) : M unit :=
  fun _ w => (Val tt, {| db := t; trace := trace w; drawn := drawn w |}).

Declare Scope js_scope.
Delimit Scope js_scope with js.
Notation "x <- m ;; k" := (bind m (fun x => k))
  (at level 61, m at next level, right associativity) : js_scope.
Notation "m ;; k" := (bind m (fun _ => k))
  (at level 61, right associativity) : js_scope.
Local Open Scope js_scope.

(** *** crypto *)

(** [crypto.randomBytes(n)] *)
Definition randomBytes (n : nat) : M (list byte) :=
  fun env w =>
    (Val (map (entropy env) (seq (drawn w) n)),
     {| db := db w; trace := trace w; drawn := drawn w + n |}).

Definition hex_digit (d : N) : N :=
  if (d <? 10)%N then (48 + d)%N else (87 + d)%N.

(** [buf.toString('hex')] *)
Definition toString_hex (buf : list byte) : jsstring :=
  flat_map (fun b => [hex_digit (Byte.to_N b / 16); hex_digit (Byte.to_N b mod 16)])
           buf.

(** *** The store *)

Definition no_answer {A} (e : pg_error) : query_result A :=
  {| data := None; error := Some e |}.

(** [.from('licenses').select('*').eq('key', k).eq('active', true).single()] *)
Definition select_active_license (k : jsstring) : M (query_result License) :=
  emit (ESelectLicense k) ;;
  env <- ask ;;
  t <- read_db ;;
  if select_fails env then ret (no_answer Unavailable)
  else
    match filter (fun l => JS.eqb (key l) k && Bool.eqb (active l) true)
                 (licenses t) with
    | [row] => ret {| data := Some row; error := None |}
    | _ => ret (no_answer NotSingleRow)
    end.

(** [.from('licenses').insert(row)] *)
Definition insert_license (row : License) : M (query_result unit) :=
  emit (EInsertLicense row) ;;
  env <- ask ;;
  t <- read_db ;;
  if insert_license_fails env then ret (no_answer Unavailable)
  else if existsb (fun l => JS.eqb (key l) (key row)) (licenses t)
  then ret (no_answer UniqueViolation)
  else
    write_db {| licenses := licenses t ++ [row]; usage := usage t |} ;;
    ret {| data := None; error := None |}.

(** [.from('usage').insert(row)] *)
Definition insert_usage (row : Usage) : M (query_result unit) :=
  emit (EInsertUsage row) ;;
  env <- ask ;;
  t <- read_db ;;
  if insert_usage_fails env then ret (no_answer Unavailable)
  else
    write_db {| licenses := licenses t; usage := usage t ++ [row] |} ;;
    ret {| data := None; error := None |}.

(** *** HTTP *)

Inductive body :=
| BError (message : jsstring)     (* { error: message } *)
| BValid (valid : bool)           (* { valid: valid } *)
| BResult (result : JSON.json)    (* { result: result } *)
| BReceived                       (* { received: true } *)
| BText (text : jsstring).        (* res.send(text) *)

Record Response := { status : nat; payload : body }.

Definition json (code : nat) (b : body) : M Response :=
  ret {| status := code; payload := b |}.

(** The fields of a request are strings, or absent. [truthy v] is the
    string when [!v] is false. *)
Definition truthy (v : option jsstring) : option jsstring :=
  match v with
  | Some (c :: s) => Some (c :: s)
  | Some [] | None => None
  end.

(** [`${v}`] *)
Definition interpolate (v : option jsstring) : jsstring :=
  match v with
  | Some s => s
  | None => lit "undefined"
  end.

Record SummariseBody := {
  licenseKey : option jsstring;
  text : option jsstring;
  title : option jsstring
}.

(** The result of [stripe.webhooks.constructEvent(req.body, sig, secret)]. *)
Record Session := {
  id : jsstring;
  customer_email : option jsstring    (* session.customer_details?.email *)
}.

Record StripeEvent := { type : jsstring; object : Session }.

Inductive constructed :=
| SignatureError (message : jsstring)
| Verified (ev : StripeEvent).

(** *** Helpers of server.js *)

(** [generateLicenseKey] *)
Definition seg : M jsstring :=
  buf <- randomBytes 3 ;;
  ret (toUpperCase (toString_hex buf)).

Definition generateLicenseKey : M jsstring :=
  a <- seg ;;
  b <- seg ;;
  c <- seg ;;
  ret (lit "TLDR-" ++ a ++ lit "-" ++ b ++ lit "-" ++ c).

Definition quote : jsstring := [34%N].
Definition dash : jsstring := [8212%N].   (* U+2014 *)
Definition nl : jsstring := [10%N].

Definition system_prompt : jsstring :=
  lit "You are a concise summariser. Respond with ONLY a JSON object, no markdown, no extra text:" ++ nl
  ++ lit "{" ++ nl
  ++ lit "  " ++ quote ++ lit "headline" ++ quote ++ lit ": " ++ quote
     ++ lit "One sharp sentence capturing the core idea (max 15 words)" ++ quote ++ lit "," ++ nl
  ++ lit "  " ++ quote ++ lit "bullets" ++ quote ++ lit ": [" ++ nl
  ++ lit "    " ++ quote ++ lit "First key point " ++ dash ++ lit " specific and useful" ++ quote ++ lit "," ++ nl
  ++ lit "    " ++ quote ++ lit "Second key point " ++ dash ++ lit " specific and useful" ++ quote ++ lit "," ++ nl
  ++ lit "    " ++ quote ++ lit "Third key point " ++ dash ++ lit " specific and useful" ++ quote ++ nl
  ++ lit "  ]," ++ nl
  ++ lit "  " ++ quote ++ lit "readTime" ++ quote ++ lit ": " ++ quote ++ lit "X min read" ++ quote ++ nl
  ++ lit "}".

Definition default_model : jsstring :=
  lit "meta-llama/llama-3.3-70b-instruct:free".

(** [`Page title: ${title}\n\nPage content:\n${trimmed}`] *)
Definition user_message (title : option jsstring) (trimmed : jsstring)
  : jsstring :=
  lit "Page title: " ++ interpolate title ++ nl ++ nl
  ++ lit "Page content:" ++ nl ++ trimmed.

(** [fetch('https://openrouter.ai/api/v1/chat/completions', ...)] *)
Definition fetch (rq : relay_request) : M response :=
  emit (ERelay rq) ;;
  env <- ask ;;
  match relay env with
  | FetchFails => throw NetworkError
  | Fetched r => ret r
  end.

Section Client.

(** How a handler reaches the store client: the global [supabase] of
    server.js, [getSupabase()] of the later revisions. *)
Variable supabase : M unit.

(** [verifyLicense] *)
Definition verifyLicense (k : jsstring) : M (option License) :=
  supabase ;;
  r <- select_active_license k ;;
  match error r, data r with
  | None, Some row => ret (Some row)
  | _, _ => ret None
  end.

(** /summarise from [text.slice(0, 6000)] to [res.json({ result })]:
    the part inside [try]. *)
Definition relay_summary (k txt : jsstring) (title : option jsstring)
  : M Response :=
  let trimmed := slice0 6000 txt in
  env <- ask ;;
  resp <- fetch {| rq_model :=
                         match truthy (OPENROUTER_MODEL env) with
                         | Some m => m
                         | None => default_model
                         end;
                       rq_max_tokens := 500;
                       rq_system := system_prompt;
                       rq_user := user_message title trimmed |} ;;
  match resp with
  | NotOk None => throw TypeError
  | NotOk (Some m) =>
      json 502 (BError match truthy m with
                       | Some msg => msg
                       | None => lit "AI API error"
                       end)
  | Ok None => throw TypeError
  | Ok (Some content) =>
      let raw := Fence.strip_fences content in
      supabase ;;
      insert_usage {| license_key := k; usage_created_at := clock env |} ;;
      match JSON.parse raw with
      | Some result => json 200 (BResult result)
      | None => throw SyntaxError
      end
  end.

(** /summarise before the [try]: the two guards. *)
Definition summarise_guarded (b : SummariseBody)
           (next : jsstring -> jsstring -> M Response) : M Response :=
  match truthy (licenseKey b), truthy (text b) with
  | Some k, Some txt =>
      license <- verifyLicense k ;;
      match license with
      | None => json 403 (BError (lit "INVALID_LICENSE"))
      | Some _ => next k txt
      end
  | _, _ => json 400 (BError (lit "Missing licenseKey or text"))
  end.

Definition internal_error : M Response :=
  json 500 (BError (lit "Internal server error")).

(** /verify *)
Definition verify_body (k : option jsstring) : M Response :=
  match truthy k with
  | None => json 400 (BValid false)
  | Some k' =>
      license <- verifyLicense k' ;;
      json 200 (BValid match license with Some _ => true | None => false end)
  end.

(** /webhook, the branch of a completed checkout up to the insert;
    [delivered] is what follows a successful insert. *)
Definition checkout_completed : jsstring := lit "checkout.session.completed".

Definition webhook_body (c : constructed)
           (delivered : jsstring -> option jsstring -> M unit) : M Response :=
  match c with
  | SignatureError m =>
      ret {| status := 400; payload := BText (lit "Webhook Error: " ++ m) |}
  | Verified ev =>
      if JS.eqb (type ev) checkout_completed then
        let session := object ev in
        let mail := customer_email session in
        k <- generateLicenseKey ;;
        env <- ask ;;
        supabase ;;
        r <- insert_license {| key := k;
                               email := mail;
                               stripe_session_id := id session;
                               active := true;
                               created_at := clock env |} ;;
        match error r with
        | Some _ => json 500 (BError (lit "Failed to create license"))
        | None => delivered k mail ;; json 200 BReceived
        end
      else json 200 BReceived
  end.

End Client.

(** *** server.js *)

Module ServerJs.

Definition supabase : M unit := ret tt.

Definition summarise (b : SummariseBody) : M Response :=
  summarise_guarded supabase b (fun k txt =>
    try_catch (relay_summary supabase k txt (title b))
              (fun _ => internal_error)).

Definition verify (k : option jsstring) : M Response :=
  verify_body supabase k.

Definition webhook (c : constructed) : M Response :=
  webhook_body supabase c (fun _ _ => ret tt).

End ServerJs.

(** *** The revision with lazily created clients and a [try] around each
    handler *)

(** [getSupabase()]: createClient throws when its settings are missing. *)
Definition getSupabase : M unit :=
  env <- ask ;;
  if SUPABASE_URL env then ret tt else throw ConfigError.

Module Guarded.

Definition summarise (b : SummariseBody) : M Response :=
  try_catch
    (summarise_guarded getSupabase b (fun k txt =>
       relay_summary getSupabase k txt (title b)))
    (fun _ => internal_error).

Definition verify (k : option jsstring) : M Response :=
  try_catch (verify_body getSupabase k)
            (fun _ => json 500 (BValid false)).

Definition webhook (c : constructed) : M Response :=
  try_catch (webhook_body getSupabase c (fun _ _ => ret tt))
            (fun _ => internal_error).

End Guarded.

(** *** The revision that mails the key *)

Module Mailing.

(** [new Resend(...)] and [resend.emails.send({ to: email, ... })] *)
Definition send_license (k : jsstring) (to : option jsstring) : M unit :=
  env <- ask ;;
  match mailer env with
  | MailNoClient => throw ConfigError
  | MailThrows => emit (EMail to k) ;; throw MailError
  | MailRefused | MailSent => emit (EMail to k)
  end.

Definition summarise (b : SummariseBody) : M Response :=
  summarise_guarded getSupabase b (fun k txt =>
    try_catch (relay_summary getSupabase k txt (title b))
              (fun _ => internal_error)).

Definition verify (k : option jsstring) : M Response :=
  verify_body getSupabase k.

Definition webhook (c : constructed) : M Response :=
  webhook_body getSupabase c (fun k mail =>
    try_catch (send_license k mail) (fun _ => ret tt)).

End Mailing.

End Backend.

(** ** Observations on a run *)

Module Observe.
Import Backend.

Definition is_relay (e : event) : bool :=
  match e with ERelay _ => true | _ => false end.

Definition is_select (e : event) : bool :=
  match e with ESelectLicense _ => true | _ => false end.

(** The calls to the completion API made so far. *)
Definition relay_calls (w : World) : list event := filter is_relay (trace w).

(** The lookups in the store made so far. *)
Definition store_lookups (w : World) : list event :=
  filter is_select (trace w).

(** The events a run starting in [w] added to reach [w']. *)
Definition added (w w' : World) : list event :=
  skipn (List.length (trace w)) (trace w').

(** [w] after the event [e]. *)
Definition log (e : event) (w : World) : World :=
  {| db := db w; trace := trace w ++ [e]; drawn := drawn w |}.

(** The rows that [.eq('key', k).eq('active', true)] keeps. *)
Definition active_rows (k : jsstring) (w : World) : list License :=
  filter (fun l => JS.eqb (key l) k && Bool.eqb (active l) true)
         (licenses (db w)).

(** The three ways a key fails to verify. *)
Definition never_issued (k : jsstring) (w : World) : Prop :=
  forall l, In l (licenses (db w)) -> key l <> k.

Definition revoked (k : jsstring) (w : World) : Prop :=
  (exists l, In l (licenses (db w)) /\ key l = k)
  /\ forall l, In l (licenses (db w)) -> key l = k -> active l = false.

Definition lookup_fails (env : Env) : Prop := select_fails env = true.

Definition unverifiable (k : jsstring) (env : Env) (w : World) : Prop :=
  never_issued k w \/ revoked k w \/ lookup_fails env.

(** The request /summarise sends for a page. *)
Definition forwarded (env : Env) (title : option jsstring) (txt : jsstring)
  : relay_request :=
  {| rq_model := match truthy (OPENROUTER_MODEL env) with
                 | Some m => m
                 | None => default_model
                 end;
     rq_max_tokens := 500;
     rq_system := system_prompt;
     rq_user := user_message title (slice0 6000 txt) |}.

Definition usage_row (env : Env) (k : jsstring) : Usage :=
  {| license_key := k; usage_created_at := clock env |}.

(** [w] after the attempt to insert the usage row [u]. *)
Definition record_usage (env : Env) (u : Usage) (w : World) : World :=
  {| db := if insert_usage_fails env then db w
           else {| licenses := licenses (db w); usage := usage (db w) ++ [u] |};
     trace := trace w ++ [EInsertUsage u];
     drawn := drawn w |}.

Definition answer (code : nat) (b : body) : Response :=
  {| status := code; payload := b |}.

Definition missing_input : Response :=
  answer 400 (BError (lit "Missing licenseKey or text")).
Definition invalid_license : Response :=
  answer 403 (BError (lit "INVALID_LICENSE")).
Definition internal_server_error : Response :=
  answer 500 (BError (lit "Internal server error")).

Definition status_of (r : outcome Response) : option nat :=
  match r with
  | Val a => Some (status a)
  | Throw _ => None
  end.


(** Content in a code fence: the opening fence, a language tag or none,
    spaces, the text, spaces, the closing fence. *)
Definition is_json_tag (tag : jsstring) : bool :=
  match strip_prefix_ci (lit "json") tag with
  | Some [] => true
  | _ => false
  end.

Definition blank (s : jsstring) : bool := forallb is_space s.

Definition fenced (tag ws1 j ws2 : jsstring) : jsstring :=
  Fence.fence ++ tag ++ ws1 ++ j ++ ws2 ++ Fence.fence.

(** Content that, spaces apart, neither starts nor ends with a fence. *)
Definition unfenced (s : jsstring) : Prop :=
  strip_prefix_ci Fence.fence (trim s) = None
  /\ strip_prefix_ci Fence.fence (rev (trim s)) = None.

(** The License records of one transaction reference. *)
Definition licenses_for (ref : jsstring) (w : World) : list License :=
  filter (fun l => JS.eqb (stripe_session_id l) ref) (licenses (db w)).

Definition key_taken (k : jsstring) (w : World) : bool :=
  existsb (fun l => JS.eqb (key l) k) (licenses (db w)).

(** The key [generateLicenseKey] builds from the next nine random bytes. *)
Definition next_key (env : Env) (w : World) : jsstring :=
  match fst (generateLicenseKey env w) with
  | Val k => k
  | Throw _ => []
  end.

(** The nine bytes the next key is made of. *)
Definition next_bytes (env : Env) (w : World) : list byte :=
  map (entropy env) (seq (drawn w) 9).

(** The row /webhook builds for the event [ev]. *)
Definition issued_license (env : Env) (w : World) (ev : StripeEvent)
  : License :=
  {| key := next_key env w;
     email := customer_email (object ev);
     stripe_session_id := id (object ev);
     active := true;
     created_at := clock env |}.

(** [w] after [n] random bytes were drawn. *)
Definition advance (n : nat) (w : World) : World :=
  {| db := db w; trace := trace w; drawn := drawn w + n |}.

Definition store_license (row : License) (w : World) : World :=
  {| db := {| licenses := licenses (db w) ++ [row]; usage := usage (db w) |};
     trace := trace w;
     drawn := drawn w |}.

(** [w] after the attempt to mail the key of [row]. *)
Definition mailed (env : Env) (row : License) (w : World) : World :=
  match mailer env with
  | MailNoClient => w
  | MailThrows | MailRefused | MailSent => log (EMail (email row) (key row)) w
  end.

Definition received : Response := answer 200 BReceived.
Definition failed_to_create : Response :=
  answer 500 (BError (lit "Failed to create license")).

(** The two digits [toString('hex').toUpperCase()] writes for a byte. *)
Definition upper_hex (b : byte) : jsstring :=
  toUpperCase (toString_hex [b]).

Definition digit_value (c : N) : N :=
  if (c <=? 57)%N then (c - 48)%N else (c - 55)%N.

Definition read_upper_hex (s : jsstring) : option byte :=
  match s with
  | [h; l] => Byte.of_N (16 * digit_value h + digit_value l)
  | _ => None
  end.

Definition set_mailer (m : mail_outcome) (env : Env) : Env :=
  {| entropy := entropy env; clock := clock env;
     SUPABASE_URL := SUPABASE_URL env;
     OPENROUTER_MODEL := OPENROUTER_MODEL env;
     select_fails := select_fails env;
     insert_license_fails := insert_license_fails env;
     insert_usage_fails := insert_usage_fails env;
     relay := relay env; mailer := m |}.

Definition set_relay (r : fetch_outcome) (env : Env) : Env :=
  {| entropy := entropy env; clock := clock env;
     SUPABASE_URL := SUPABASE_URL env;
     OPENROUTER_MODEL := OPENROUTER_MODEL env;
     select_fails := select_fails env;
     insert_license_fails := insert_license_fails env;
     insert_usage_fails := insert_usage_fails env;
     relay := r; mailer := mailer env |}.

(** [TLDR-XXXXXX-XXXXXX-XXXXXX], X an uppercase hexadecimal digit. *)
Definition is_upper_hex (c : N) : bool :=
  (((48 <=? c) && (c <=? 57)) || ((65 <=? c) && (c <=? 70)))%N.

Definition is_segment (s : jsstring) : bool :=
  (List.length s =? 6)%nat && forallb is_upper_hex s.

Definition is_license_key (s : jsstring) : bool :=
  JS.eqb (firstn 5 s) (lit "TLDR-")
  && is_segment (firstn 6 (skipn 5 s))
  && JS.eqb (firstn 1 (skipn 11 s)) (lit "-")
  && is_segment (firstn 6 (skipn 12 s))
  && JS.eqb (firstn 1 (skipn 18 s)) (lit "-")
  && is_segment (skipn 19 s).

End Observe.

(** ** What the random source can do

    [crypto.randomBytes] is taken to be uniform: for [n] keys generated one
    after the other, every list of [n] nine-byte values is equally likely. The
    definitions below enumerate these lists, so that "with overwhelming
    probability" becomes a count. *)

Module Draws.
Import Backend Observe.
#[local] Unset Implicit Arguments.

Section Words.

Variable A : Type.
Variable same : A -> A -> bool.

(** Does a value occur twice in [l]? *)
Fixpoint has_repeat (l : list A) : bool :=
  match l with
  | [] => false
  | x :: l' => existsb (same x) l' || has_repeat l'
  end.

(** The lists of [n] values taken from [univ]. *)
Fixpoint words (univ : list A) (n : nat) : list (list A) :=
  match n with
  | 0 => [[]]
  | S n' => flat_map (fun t => map (fun x => x :: t) univ) (words univ n')
  end.

End Words.

Definition all_bytes : list byte :=
  map (fun n => match Byte.of_nat n with Some b => b | None => x00 end)
      (seq 0 256).

(** The values nine random bytes can take. *)
Definition seeds : list (list byte) := words byte all_bytes 9.

(** What the random source can return for [n] keys in a row. *)
Definition draws (n : nat) : list (list (list byte)) := words (list byte) seeds n.

Definition same_seed (a b : list byte) : bool :=
  if list_eq_dec Byte.byte_eq_dec a b then true else false.

(** The key made of the nine bytes [s]. *)
Definition seed_key (s : list byte) : jsstring :=
  lit "TLDR-"
  ++ upper_hex (nth 0 s x00) ++ upper_hex (nth 1 s x00) ++ upper_hex (nth 2 s x00)
  ++ lit "-"
  ++ upper_hex (nth 3 s x00) ++ upper_hex (nth 4 s x00) ++ upper_hex (nth 5 s x00)
  ++ lit "-"
  ++ upper_hex (nth 6 s x00) ++ upper_hex (nth 7 s x00) ++ upper_hex (nth 8 s x00).

(** [n] keys generated one after the other. *)
Fixpoint generateMany (n : nat) : M (list jsstring) :=
  match n with
  | 0 => ret []
  | S n' =>
      bind generateLicenseKey (fun k =>
      bind (generateMany n') (fun ks => ret (k :: ks)))
  end.

(** The random source that hands out the bytes of [d], in order, from the
    position reached in [w]. *)
Definition feed (d : list (list byte)) (w : World) (env : Env) : Env :=
  {| entropy := fun i => nth (i - drawn w) (List.concat d) x00;
     clock := clock env;
     SUPABASE_URL := SUPABASE_URL env;
     OPENROUTER_MODEL := OPENROUTER_MODEL env;
     select_fails := select_fails env;
     insert_license_fails := insert_license_fails env;
     insert_usage_fails := insert_usage_fails env;
     relay := relay env; mailer := mailer env |}.

Definition keys_drawn (d : list (list byte)) (env : Env) (w : World)
  : list jsstring :=
  match fst (generateMany (List.length d) (feed d w env) w) with
  | Val ks => ks
  | Throw _ => []
  end.

End Draws.

(** ** Sample data *)

Module Sample.
Import Backend.

Definition bytes (i : nat) : byte :=
  match Byte.of_N (N.of_nat (i * 37 + 11) mod 256) with
  | Some b => b
  | None => x00
  end.

Definition env0 : Env :=
  {| entropy := bytes;
     clock := lit "2024-05-01T10:00:00.000Z";
     SUPABASE_URL := true;
     OPENROUTER_MODEL := None;
     select_fails := false;
     insert_license_fails := false;
     insert_usage_fails := false;
     relay := Fetched (Ok (Some (lit "[1, 2]")));
     mailer := MailSent |}.

Definition world0 : World :=
  {| db := {| licenses := []; usage := [] |}; trace := []; drawn := 0 |}.

Definition alice : License :=
  {| key := lit "TLDR-0123AB-4567CD-89EF01";
     email := Some (lit "alice@example.org");
     stripe_session_id := lit "cs_test_1";
     active := true;
     created_at := lit "2024-04-01T08:00:00.000Z" |}.

Definition bob_revoked : License :=
  {| key := lit "TLDR-AAAAAA-BBBBBB-CCCCCC";
     email := None;
     stripe_session_id := lit "cs_test_2";
     active := false;
     created_at := lit "2024-04-02T08:00:00.000Z" |}.

Definition world1 : World :=
  {| db := {| licenses := [alice; bob_revoked]; usage := [] |};
     trace := []; drawn := 0 |}.

Definition checkout : StripeEvent :=
  {| type := lit "checkout.session.completed";
     object := {| id := lit "cs_test_3";
                  customer_email := Some (lit "carol@example.org") |} |}.

Definition fenced_content : jsstring :=
  lit "```json
[1, 2]
```".

(** The store refuses the usage row; the completion API answers in a fence. *)
Definition env_usage_down : Env :=
  {| entropy := bytes;
     clock := lit "2024-05-01T10:00:00.000Z";
     SUPABASE_URL := true;
     OPENROUTER_MODEL := None;
     select_fails := false;
     insert_license_fails := false;
     insert_usage_fails := true;
     relay := Fetched (Ok (Some fenced_content));
     mailer := MailSent |}.

(** The completion API answers with prose. *)
Definition env_talk : Env :=
  Observe.set_relay (Fetched (Ok (Some (lit "Here is your summary.")))) env0.

(** A page of 10,000 characters. *)
Definition long_page : jsstring := repeat 120%N (N.to_nat 10000).

Definition request (txt : jsstring) : SummariseBody :=
  {| licenseKey := Some (key alice);
     text := Some txt;
     title := Some (lit "A page") |}.

End Sample.

(** ** The server as a whole

    The routes, for each of the three revisions of the file, and the process
    serving requests one after the other. *)

Module App.
Import Backend Observe.

(** The routes of the server. *)
Inductive request :=
| Summarise (b : SummariseBody)      (* POST /summarise *)
| Verify (k : option jsstring)       (* GET /verify?key= *)
| Webhook (c : constructed).         (* POST /webhook *)

Inductive revision :=
| Original      (* server.js *)
| WithGuards    (* lazily created clients, a try around each handler *)
| WithMail.     (* lazily created clients, the key is mailed *)

Definition handle (rev : revision) (q : request) : M Response :=
  match rev, q with
  | Original, Summarise b => ServerJs.summarise b
  | Original, Verify k => ServerJs.verify k
  | Original, Webhook c => ServerJs.webhook c
  | WithGuards, Summarise b => Guarded.summarise b
  | WithGuards, Verify k => Guarded.verify k
  | WithGuards, Webhook c => Guarded.webhook c
  | WithMail, Summarise b => Mailing.summarise b
  | WithMail, Verify k => Mailing.verify k
  | WithMail, Webhook c => Mailing.webhook c
  end.

(** The requests the process serves one after the other, each with what the
    surroundings answer during it; the state left behind. *)
Fixpoint serve (rev : revision) (qs : list (Env * request)) (w : World)
  : World :=
  match qs with
  | [] => w
  | (env, q) :: qs' => serve rev qs' (snd (handle rev q env w))
  end.

(** No two License rows have the same key. *)
Definition unique_keys (w : World) : Prop :=
  NoDup (map key (licenses (db w))).

(** What one request can do to the tables. *)
Inductive db_step (t : Tables) : Tables -> Prop :=
| StepNone : db_step t t
| StepLicense (row : License) :
    active row = true ->
    existsb (fun l => JS.eqb (key l) (key row)) (licenses t) = false ->
    db_step t {| licenses := licenses t ++ [row]; usage := usage t |}
| StepUsage (u : Usage) :
    db_step t {| licenses := licenses t; usage := usage t ++ [u] |}.

(** The store client can be built: always so in server.js, which builds it
    when the process starts. *)
Definition configured (rev : revision) (env : Env) : Prop :=
  rev = Original \/ SUPABASE_URL env = true.

(** Does the request get as far as asking for the store client? *)
Definition reaches_store (q : request) : bool :=
  match q with
  | Summarise b =>
      match truthy (licenseKey b), truthy (text b) with
      | Some _, Some _ => true
      | _, _ => false
      end
  | Verify k => match truthy k with Some _ => true | None => false end
  | Webhook (Verified ev) => JS.eqb (type ev) checkout_completed
  | Webhook (SignatureError _) => false
  end.

End App.

(** ** More sample data *)

Module Scenario.
Import Backend Observe App.

(** The key that the next checkout would draw is already in the table. *)
Definition world_taken : World :=
  {| db := {| licenses := [issued_license Sample.env0 Sample.world0
                             Sample.checkout];
              usage := [] |};
     trace := []; drawn := 0 |}.


(** The store settings are missing. *)
Definition env_unconfigured : Env :=
  {| entropy := entropy Sample.env0;
     clock := clock Sample.env0;
     SUPABASE_URL := false;
     OPENROUTER_MODEL := None;
     select_fails := false;
     insert_license_fails := false;
     insert_usage_fails := false;
     relay := relay Sample.env0;
     mailer := MailSent |}.

(** The store cannot be queried. *)
Definition env_store_down : Env :=
  {| entropy := entropy Sample.env0;
     clock := clock Sample.env0;
     SUPABASE_URL := true;
     OPENROUTER_MODEL := None;
     select_fails := true;
     insert_license_fails := true;
     insert_usage_fails := true;
     relay := relay Sample.env0;
     mailer := MailSent |}.

End Scenario.

(** * Properties *)

Example strip_fences_json_tag :
  Fence.strip_fences (lit "```json
[1, 2]
```") = lit "[1, 2]".
Proof. reflexivity. Qed.

Example parse_object :
  JSON.parse (lit "{" ++ [34; 97; 34]%N ++ lit " : [1, -2.5e3, true, null], " ++ [34;34]%N ++ lit ":{}} ")
  = Some (JSON.JObject [(lit "a", JSON.JArray [JSON.JNumber (lit "1"); JSON.JNumber (lit "-2.5e3"); JSON.JBool true; JSON.JNull]); ([], JSON.JObject [])]).
Proof. reflexivity. Qed.

Example parse_bad1 : JSON.parse (lit "[1,]") = None. Proof. reflexivity. Qed.
Example parse_bad2 : JSON.parse (lit "01") = None. Proof. reflexivity. Qed.
Example parse_bad3 : JSON.parse (lit "Here is your summary") = None. Proof. reflexivity. Qed.
Example parse_bad4 : JSON.parse (lit "{} x") = None. Proof. reflexivity. Qed.
Example parse_bad5 : JSON.parse [] = None. Proof. reflexivity. Qed.
Example parse_bad6 : JSON.parse (lit "truefalse") = None. Proof. reflexivity. Qed.
Example parse_ok1 : JSON.parse (lit " true") = Some (JSON.JBool true). Proof. reflexivity. Qed.

Import Backend Observe Fence Draws.

Example sample_key :
  fst (generateLicenseKey Sample.env0 Sample.world0)
  = Val (lit "TLDR-0B3055-7A9FC4-E90E33").
Proof. reflexivity. Qed.

Example sample_verify :
  fst (ServerJs.verify (Some (key Sample.alice)) Sample.env0 Sample.world1)
  = Val {| status := 200; payload := BValid true |}.
Proof. reflexivity. Qed.

Example sample_summarise :
  fst (ServerJs.summarise (Sample.request (lit "some text")) Sample.env0 Sample.world1)
  = Val {| status := 200; payload := BResult (JSON.JArray [JSON.JNumber (lit "1"); JSON.JNumber (lit "2")]) |}.
Proof. reflexivity. Qed.


(** ** Running the monad *)

Ltac run :=
  unfold bind, ret, ask, emit, read_db, write_db, throw, try_catch, json.

Lemma eqb_eq (a b : jsstring) : JS.eqb a b = true <-> a = b.
Proof.
  unfold JS.eqb. destruct (list_eq_dec N.eq_dec a b); split; congruence.
Qed.

Lemma eqb_refl (a : jsstring) : JS.eqb a a = true.
Proof. now apply eqb_eq. Qed.


(** ** /verify *)

(** C10. A /verify request whose key is absent or empty is answered
    [{ valid: false }] (with status 400) and the world is left as it was: no
    lookup reaches the store. This holds for server.js and for both later
    revisions of the handler. *)
Theorem verify_without_key_no_lookup (k : option jsstring) (env : Env) (w : World) :
  k = None \/ k = Some [] ->
  let answer := (Val {| status := 400; payload := BValid false |}, w) in
  ServerJs.verify k env w = answer
  /\ Guarded.verify k env w = answer
  /\ Mailing.verify k env w = answer
  /\ store_lookups (snd (ServerJs.verify k env w)) = store_lookups w
  /\ store_lookups (snd (Guarded.verify k env w)) = store_lookups w.
Proof.
  intros [-> | ->]; cbn; repeat split; reflexivity.
Qed.

Lemma verify_without_key_no_lookup_witness :
  ServerJs.verify (Some []) Sample.env0 Sample.world1
  = (Val {| status := 400; payload := BValid false |}, Sample.world1).
Proof.
  exact (proj1 (verify_without_key_no_lookup Sample.env0 Sample.world1
                  (or_intror eq_refl))).
Defined.

(** ** verifyLicense *)

Lemma select_run (k : jsstring) (env : Env) (w : World) :
  select_active_license k env w
  = (Val (if select_fails env then no_answer Unavailable
          else match active_rows k w with
               | [row] => {| data := Some row; error := None |}
               | _ => no_answer NotSingleRow
               end),
     log (ESelectLicense k) w).
Proof.
  unfold select_active_license, active_rows, log. run. cbn.
  destruct (select_fails env); [reflexivity|].
  destruct (filter _ _) as [|row [|row' rows]]; reflexivity.
Qed.

Lemma verifyLicense_run (k : jsstring) (env : Env) (w : World) :
  verifyLicense ServerJs.supabase k env w
  = (Val (if select_fails env then None
          else match active_rows k w with
               | [row] => Some row
               | _ => None
               end),
     log (ESelectLicense k) w).
Proof.
  unfold verifyLicense, ServerJs.supabase.
  unfold bind at 1. unfold ret at 1. unfold bind. rewrite select_run.
  destruct (select_fails env); [reflexivity|].
  destruct (active_rows k w) as [|row [|row' rows]]; reflexivity.
Qed.

Lemma no_active_rows (k : jsstring) (w : World) :
  (forall l, In l (licenses (db w)) -> key l = k -> active l = false) ->
  active_rows k w = [].
Proof.
  unfold active_rows. induction (licenses (db w)) as [|l ls IH]; intros H.
  - reflexivity.
  - cbn. destruct (JS.eqb (key l) k) eqn:E.
    + apply eqb_eq in E. rewrite (H l (or_introl eq_refl) E). cbn.
      apply IH. intros l' Hin. apply H. now right.
    + cbn. apply IH. intros l' Hin. apply H. now right.
Qed.

Lemma unverifiable_none (k : jsstring) (env : Env) (w : World) :
  unverifiable k env w ->
  fst (verifyLicense ServerJs.supabase k env w) = Val None.
Proof.
  rewrite verifyLicense_run. cbn. intros [H | [[_ H] | H]].
  - rewrite no_active_rows.
    + now destruct (select_fails env).
    + intros l Hin Hk. now destruct (H l Hin).
  - rewrite (no_active_rows _ H). now destruct (select_fails env).
  - unfold lookup_fails in H. now rewrite H.
Qed.

Lemma unverifiable_invalid (k : jsstring) (env : Env) (w : World) :
  k <> [] -> unverifiable k env w ->
  fst (ServerJs.verify (Some k) env w) = Val (answer 200 (BValid false)).
Proof.
  intros Hk H. apply unverifiable_none in H.
  unfold ServerJs.verify, verify_body.
  destruct k as [|c k']; [congruence|]. cbn [truthy].
  unfold bind, json, ret.
  destruct (verifyLicense ServerJs.supabase (c :: k') env w) as [o w'].
  cbn in H. subst. reflexivity.
Qed.

(** C2. A key that was never issued, a key whose record is inactive, and a
    lookup that the store fails all make [verifyLicense] return [null]; the
    answers of /verify in any two such situations are equal, so a caller
    cannot tell one from the other. *)
Theorem verify_fails_closed_indistinguishably
        (k : jsstring) (env1 env2 : Env) (w1 w2 : World) :
  unverifiable k env1 w1 ->
  unverifiable k env2 w2 ->
  fst (verifyLicense ServerJs.supabase k env1 w1) = Val None
  /\ fst (verifyLicense ServerJs.supabase k env2 w2) = Val None
  /\ fst (ServerJs.verify (Some k) env1 w1)
     = fst (ServerJs.verify (Some k) env2 w2)
  /\ (k <> [] ->
      fst (ServerJs.verify (Some k) env1 w1)
      = Val (answer 200 (BValid false))).
Proof.
  intros H1 H2.
  split; [now apply unverifiable_none|].
  split; [now apply unverifiable_none|].
  split; [|intros Hk; now apply unverifiable_invalid].
  destruct k as [|c k']; [reflexivity|].
  rewrite !unverifiable_invalid; trivial; discriminate.
Qed.

Lemma verify_fails_closed_indistinguishably_witness :
  fst (ServerJs.verify (Some (key Sample.bob_revoked)) Sample.env0 Sample.world0)
  = fst (ServerJs.verify (Some (key Sample.bob_revoked)) Sample.env0 Sample.world1).
Proof.
  refine (proj1 (proj2 (proj2
    (@verify_fails_closed_indistinguishably (key Sample.bob_revoked)
       Sample.env0 Sample.env0 Sample.world0 Sample.world1 _ _)))).
  - left. intros l [].
  - right; left. split.
    + exists Sample.bob_revoked. split; [right; left|]; reflexivity.
    + intros l [<- | [<- | []]] H; [discriminate H | reflexivity].
Defined.

(** ** /summarise *)

Lemma relay_summary_run (k txt : jsstring) (title : option jsstring)
      (env : Env) (w : World) :
  try_catch (relay_summary ServerJs.supabase k txt title)
            (fun _ => internal_error) env w
  = let w1 := log (ERelay (forwarded env title txt)) w in
    match relay env with
    | FetchFails => (Val internal_server_error, w1)
    | Fetched (NotOk None) => (Val internal_server_error, w1)
    | Fetched (NotOk (Some m)) =>
        (Val (answer 502 (BError match truthy m with
                                 | Some msg => msg
                                 | None => lit "AI API error"
                                 end)), w1)
    | Fetched (Ok None) => (Val internal_server_error, w1)
    | Fetched (Ok (Some content)) =>
        let w2 := record_usage env (usage_row env k) w1 in
        match JSON.parse (Fence.strip_fences content) with
        | Some result => (Val (answer 200 (BResult result)), w2)
        | None => (Val internal_server_error, w2)
        end
    end.
Proof.
  unfold relay_summary, fetch, insert_usage, internal_error, ServerJs.supabase,
    record_usage, log, forwarded, usage_row, internal_server_error, answer.
  run. cbn.
  destruct (relay env) as [|[[m|]|[content|]]]; try reflexivity.
  destruct (insert_usage_fails env); cbn;
    destruct (JSON.parse (Fence.strip_fences content)); reflexivity.
Qed.

Lemma summarise_run (b : SummariseBody) (env : Env) (w : World) :
  ServerJs.summarise b env w
  = match truthy (licenseKey b), truthy (text b) with
    | Some k, Some txt =>
        match fst (verifyLicense ServerJs.supabase k env w) with
        | Val (Some _) =>
            try_catch (relay_summary ServerJs.supabase k txt (title b))
                      (fun _ => internal_error) env (log (ESelectLicense k) w)
        | _ => (Val invalid_license, log (ESelectLicense k) w)
        end
    | _, _ => (Val missing_input, w)
    end.
Proof.
  unfold ServerJs.summarise, summarise_guarded.
  destruct (truthy (licenseKey b)) as [k|]; [|reflexivity].
  destruct (truthy (text b)) as [txt|]; [|reflexivity].
  unfold bind at 1. rewrite verifyLicense_run. cbn [fst].
  destruct (if select_fails env then None else _); reflexivity.
Qed.

Lemma added_app (w w' : World) (evs : list event) :
  trace w' = trace w ++ evs -> added w w' = evs.
Proof.
  unfold added. intros ->. rewrite skipn_app, skipn_all, Nat.sub_diag.
  reflexivity.
Qed.

Lemma relay_calls_log (e : event) (w : World) :
  relay_calls (log e w) = relay_calls w ++ (if is_relay e then [e] else []).
Proof.
  unfold relay_calls, log. cbn. rewrite filter_app. cbn.
  now destruct (is_relay e).
Qed.

Lemma added_log (e : event) (w : World) : added w (log e w) = [e].
Proof. now apply added_app. Qed.

(** The part inside [try] first calls the completion API; whatever else it
    adds to the trace is not such a call. *)
Lemma relay_summary_trace (k txt : jsstring) (title : option jsstring)
      (env : Env) (w : World) :
  exists rest,
    trace (snd (try_catch (relay_summary ServerJs.supabase k txt title)
                          (fun _ => internal_error) env w))
    = trace w ++ ERelay (forwarded env title txt) :: rest
    /\ filter is_relay rest = [].
Proof.
  rewrite relay_summary_run. cbv zeta.
  destruct (relay env) as [|[[m|]|[content|]]];
    try (exists []; split; reflexivity).
  exists [EInsertUsage (usage_row env k)]. split; [|reflexivity].
  destruct (JSON.parse _); cbn; now rewrite <- app_assoc.
Qed.

(** When /summarise calls the completion API: both fields were there, the
    key verified, the lookup came first and the request is [forwarded]. *)
Lemma summarise_relay_call (b : SummariseBody) (env : Env) (w : World)
      (rq : relay_request) :
  In (ERelay rq) (added w (snd (ServerJs.summarise b env w))) ->
  exists k txt row rest,
    truthy (licenseKey b) = Some k /\ truthy (text b) = Some txt
    /\ fst (verifyLicense ServerJs.supabase k env w) = Val (Some row)
    /\ rq = forwarded env (title b) txt
    /\ added w (snd (ServerJs.summarise b env w))
       = ESelectLicense k :: ERelay rq :: rest.
Proof.
  rewrite summarise_run.
  destruct (truthy (licenseKey b)) as [k|];
    [|unfold added; rewrite skipn_all; intros []].
  destruct (truthy (text b)) as [txt|];
    [|unfold added; rewrite skipn_all; intros []].
  destruct (fst (verifyLicense ServerJs.supabase k env w)) as [[row|]|e] eqn:V;
    cbn [snd]; try (rewrite added_log; intros [H | []]; discriminate H).
  destruct (relay_summary_trace k txt (title b) env (log (ESelectLicense k) w))
    as [rest [T R]].
  assert (A : added w (snd (try_catch
                (relay_summary ServerJs.supabase k txt (title b))
                (fun _ => internal_error) env (log (ESelectLicense k) w)))
              = ESelectLicense k :: ERelay (forwarded env (title b) txt) :: rest).
  { apply added_app. rewrite T. unfold log. cbn. now rewrite <- app_assoc. }
  rewrite A. intros [H | [H | H]]; [discriminate H| |].
  - inversion H; subst. now exists k, txt, row, rest.
  - exfalso. assert (F : In (ERelay rq) (filter is_relay rest))
      by (apply filter_In; now split).
    rewrite R in F. destruct F.
Qed.

(** C3. A /summarise request without (or with an empty) licenseKey or text is
    answered 400 "Missing licenseKey or text" and nothing at all has happened;
    a request whose key does not verify is answered 403 INVALID_LICENSE after
    the lookup alone: no call to the completion API, no usage row. Whenever a
    call to the completion API is made, both fields were present, the key
    verified, and the lookup comes before the call in the trace. *)
Theorem summarise_gates_before_relay (b : SummariseBody) (env : Env) (w : World) :
  (truthy (licenseKey b) = None \/ truthy (text b) = None ->
   ServerJs.summarise b env w = (Val missing_input, w))
  /\ (forall k txt,
        truthy (licenseKey b) = Some k -> truthy (text b) = Some txt ->
        fst (verifyLicense ServerJs.supabase k env w) = Val None ->
        let w' := snd (ServerJs.summarise b env w) in
        fst (ServerJs.summarise b env w) = Val invalid_license
        /\ added w w' = [ESelectLicense k]
        /\ relay_calls w' = relay_calls w
        /\ db w' = db w)
  /\ (forall rq,
        In (ERelay rq) (added w (snd (ServerJs.summarise b env w))) ->
        exists k txt row rest,
          truthy (licenseKey b) = Some k /\ truthy (text b) = Some txt
          /\ fst (verifyLicense ServerJs.supabase k env w) = Val (Some row)
          /\ added w (snd (ServerJs.summarise b env w))
             = ESelectLicense k :: ERelay rq :: rest).
Proof.
  split; [|split].
  - rewrite summarise_run. intros [-> | H]; [reflexivity|]. rewrite H.
    now destruct (truthy (licenseKey b)).
  - rewrite summarise_run. intros k txt -> -> ->. cbv zeta. cbn [fst snd].
    split; [reflexivity|]. split; [apply added_log|].
    split; [|reflexivity]. rewrite relay_calls_log. apply app_nil_r.
  - intros rq H.
    destruct (summarise_relay_call _ _ _ _ H) as (k & txt & row & rest & P).
    exists k, txt, row, rest. tauto.
Qed.

Lemma summarise_gates_before_relay_witness :
  ServerJs.summarise
    {| licenseKey := None; text := Some (lit "page"); title := None |}
    Sample.env0 Sample.world1
  = (Val missing_input, Sample.world1).
Proof.
  apply (proj1 (summarise_gates_before_relay _ Sample.env0 Sample.world1)).
  left. reflexivity.
Defined.

Example summarise_revoked_key :
  let b := {| licenseKey := Some (key Sample.bob_revoked);
              text := Some (lit "page"); title := None |} in
  fst (ServerJs.summarise b Sample.env0 Sample.world1) = Val invalid_license
  /\ trace (snd (ServerJs.summarise b Sample.env0 Sample.world1))
     = [ESelectLicense (key Sample.bob_revoked)].
Proof. split; reflexivity. Qed.

(** C5. With a verified key, a successful answer of the completion API and
    content that parses, the summary is returned with status 200 even when the
    insert into [usage] fails; the failed insert leaves the table as it was. *)
Theorem usage_failure_keeps_summary
        (b : SummariseBody) (env : Env) (w : World)
        (k txt content : jsstring) (row : License) (result : JSON.json) :
  truthy (licenseKey b) = Some k ->
  truthy (text b) = Some txt ->
  fst (verifyLicense ServerJs.supabase k env w) = Val (Some row) ->
  relay env = Fetched (Ok (Some content)) ->
  JSON.parse (Fence.strip_fences content) = Some result ->
  insert_usage_fails env = true ->
  let w' := snd (ServerJs.summarise b env w) in
  fst (ServerJs.summarise b env w) = Val (answer 200 (BResult result))
  /\ usage (db w') = usage (db w)
  /\ In (EInsertUsage (usage_row env k)) (added w w').
Proof.
  intros Hk Ht Hv Hr Hp Hu. cbv zeta.
  rewrite summarise_run, Hk, Ht, Hv, relay_summary_run, Hr. cbv zeta.
  rewrite Hp. cbn [fst snd]. split; [reflexivity|]. split.
  - unfold record_usage. rewrite Hu. reflexivity.
  - erewrite added_app.
    2:{ unfold record_usage, log. cbn [trace]. rewrite <- !app_assoc.
        reflexivity. }
    cbn. auto.
Qed.

(** C4 (as the code has it). With a verified key and a successful answer of
    the completion API whose content does not parse, the answer is
    500 "Internal server error": the one answer of the [catch] clause, the
    same as when the completion API cannot be reached. *)
Theorem unparseable_content_is_internal_error
        (b : SummariseBody) (env : Env) (w : World)
        (k txt content : jsstring) (row : License) :
  truthy (licenseKey b) = Some k ->
  truthy (text b) = Some txt ->
  fst (verifyLicense ServerJs.supabase k env w) = Val (Some row) ->
  relay env = Fetched (Ok (Some content)) ->
  JSON.parse (Fence.strip_fences content) = None ->
  fst (ServerJs.summarise b env w) = Val internal_server_error
  /\ fst (ServerJs.summarise b (set_relay FetchFails env) w)
     = fst (ServerJs.summarise b env w).
Proof.
  intros Hk Ht Hv Hr Hp.
  assert (Hv' : fst (verifyLicense ServerJs.supabase k (set_relay FetchFails env) w)
                = Val (Some row)).
  { rewrite verifyLicense_run in *. exact Hv. }
  rewrite !summarise_run, Hk, Ht, Hv, Hv', !relay_summary_run, Hr. cbv zeta.
  rewrite Hp. split; reflexivity.
Qed.

Lemma usage_failure_keeps_summary_witness :
  fst (ServerJs.summarise (Sample.request (lit "page")) Sample.env_usage_down
         Sample.world1)
  = Val (answer 200 (BResult (JSON.JArray [JSON.JNumber (lit "1");
                                           JSON.JNumber (lit "2")]))).
Proof.
  eapply proj1.
  apply usage_failure_keeps_summary
    with (k := key Sample.alice) (txt := lit "page") (row := Sample.alice)
         (content := Sample.fenced_content);
    reflexivity.
Defined.

Lemma unparseable_content_is_internal_error_witness :
  fst (ServerJs.summarise (Sample.request (lit "page")) Sample.env_talk
         Sample.world1)
  = Val internal_server_error.
Proof.
  eapply proj1.
  apply unparseable_content_is_internal_error
    with (k := key Sample.alice) (txt := lit "page") (row := Sample.alice)
         (content := lit "Here is your summary.");
    reflexivity.
Defined.

(** C4, refuted as stated: for content that is not JSON the answer is
    500 "Internal server error", and it is the very answer given when the
    completion API is unreachable or answers without [choices]: the error is
    not reported under a category of its own. *)
Lemma unparseable_content_not_distinct :
  let b := Sample.request (lit "page") in
  let w := Sample.world1 in
  let talk := Sample.env_talk in
  let down := set_relay FetchFails Sample.env0 in
  let odd := set_relay (Fetched (Ok None)) Sample.env0 in
  JSON.parse (Fence.strip_fences (lit "Here is your summary.")) = None
  /\ fst (ServerJs.summarise b talk w) = Val internal_server_error
  /\ fst (ServerJs.summarise b down w) = fst (ServerJs.summarise b talk w)
  /\ fst (ServerJs.summarise b odd w) = fst (ServerJs.summarise b talk w).
Proof. repeat split; reflexivity. Qed.






Example long_page_is_cut_to_6000 :
  let run := ServerJs.summarise (Sample.request Sample.long_page)
               Sample.env0 Sample.world1 in
  N.of_nat (List.length Sample.long_page) = 10000%N
  /\ relay_calls (snd run)
     = [ERelay (forwarded Sample.env0 (Some (lit "A page")) Sample.long_page)]
  /\ rq_user (forwarded Sample.env0 (Some (lit "A page")) Sample.long_page)
     = user_message (Some (lit "A page")) (repeat 120%N (N.to_nat 6000))
  /\ status_of (fst run) = Some 200.
Proof. vm_compute. repeat split; reflexivity. Qed.

(** ** generateLicenseKey *)

Lemma upper_hex_digits (b : byte) :
  exists h l, upper_hex b = [h; l]
              /\ is_upper_hex h = true /\ is_upper_hex l = true.
Proof.
  destruct b; eexists; eexists; (split; [reflexivity | split; reflexivity]).
Qed.

Lemma read_upper_hex_inv (b : byte) : read_upper_hex (upper_hex b) = Some b.
Proof. destruct b; reflexivity. Qed.

Lemma upper_hex_inj (a b : byte) : upper_hex a = upper_hex b -> a = b.
Proof.
  intros H. apply (f_equal read_upper_hex) in H.
  rewrite !read_upper_hex_inv in H. congruence.
Qed.

Lemma seg_of_bytes (env : Env) (d : nat) :
  toUpperCase (toString_hex (map (entropy env) (seq d 3)))
  = upper_hex (entropy env (d + 0)) ++ upper_hex (entropy env (d + 1))
    ++ upper_hex (entropy env (d + 2)).
Proof.
  cbn [seq map]. replace (S d) with (d + 1) by lia.
  replace (S (d + 1)) with (d + 2) by lia. rewrite Nat.add_0_r. reflexivity.
Qed.

Lemma generateLicenseKey_run (env : Env) (w : World) :
  generateLicenseKey env w
  = (Val (lit "TLDR-"
          ++ upper_hex (entropy env (drawn w))
          ++ upper_hex (entropy env (drawn w + 1))
          ++ upper_hex (entropy env (drawn w + 2))
          ++ lit "-"
          ++ upper_hex (entropy env (drawn w + 3))
          ++ upper_hex (entropy env (drawn w + 4))
          ++ upper_hex (entropy env (drawn w + 5))
          ++ lit "-"
          ++ upper_hex (entropy env (drawn w + 6))
          ++ upper_hex (entropy env (drawn w + 7))
          ++ upper_hex (entropy env (drawn w + 8))),
     advance 9 w).
Proof.
  unfold generateLicenseKey, seg, randomBytes, advance. run.
  cbn [drawn db trace]. rewrite !seg_of_bytes, <- !Nat.add_assoc.
  cbn [Nat.add]. rewrite Nat.add_0_r, <- !app_assoc. reflexivity.
Qed.

Lemma segment_ok (a b c : byte) :
  is_segment (upper_hex a ++ upper_hex b ++ upper_hex c) = true.
Proof.
  destruct (upper_hex_digits a) as (h1 & l1 & -> & H1 & L1).
  destruct (upper_hex_digits b) as (h2 & l2 & -> & H2 & L2).
  destruct (upper_hex_digits c) as (h3 & l3 & -> & H3 & L3).
  unfold is_segment. cbn. now rewrite H1, L1, H2, L2, H3, L3.
Qed.

Lemma key_shape (a1 a2 a3 b1 b2 b3 c1 c2 c3 : byte) :
  let k := lit "TLDR-" ++ upper_hex a1 ++ upper_hex a2 ++ upper_hex a3
           ++ lit "-" ++ upper_hex b1 ++ upper_hex b2 ++ upper_hex b3
           ++ lit "-" ++ upper_hex c1 ++ upper_hex c2 ++ upper_hex c3 in
  is_license_key k = true /\ List.length k = 25.
Proof.
  pose proof (segment_ok a1 a2 a3) as A.
  pose proof (segment_ok b1 b2 b3) as B.
  pose proof (segment_ok c1 c2 c3) as C.
  revert A B C.
  destruct (upper_hex_digits a1) as (? & ? & -> & _).
  destruct (upper_hex_digits a2) as (? & ? & -> & _).
  destruct (upper_hex_digits a3) as (? & ? & -> & _).
  destruct (upper_hex_digits b1) as (? & ? & -> & _).
  destruct (upper_hex_digits b2) as (? & ? & -> & _).
  destruct (upper_hex_digits b3) as (? & ? & -> & _).
  destruct (upper_hex_digits c1) as (? & ? & -> & _).
  destruct (upper_hex_digits c2) as (? & ? & -> & _).
  destruct (upper_hex_digits c3) as (? & ? & -> & _).
  intros A B C. split; [|reflexivity].
  unfold is_license_key.
  change (is_segment [x; x0; x1; x2; x3; x4] = true) in A.
  change (is_segment [x5; x6; x7; x8; x9; x10] = true) in B.
  change (is_segment [x11; x12; x13; x14; x15; x16] = true) in C.
  cbn [lit list_ascii_of_string map app firstn skipn].
  rewrite A, B, C. reflexivity.
Qed.

Lemma key_inj (a1 a2 a3 b1 b2 b3 c1 c2 c3 a1' a2' a3' b1' b2' b3' c1' c2' c3' : byte) :
  lit "TLDR-" ++ upper_hex a1 ++ upper_hex a2 ++ upper_hex a3
    ++ lit "-" ++ upper_hex b1 ++ upper_hex b2 ++ upper_hex b3
    ++ lit "-" ++ upper_hex c1 ++ upper_hex c2 ++ upper_hex c3
  = lit "TLDR-" ++ upper_hex a1' ++ upper_hex a2' ++ upper_hex a3'
    ++ lit "-" ++ upper_hex b1' ++ upper_hex b2' ++ upper_hex b3'
    ++ lit "-" ++ upper_hex c1' ++ upper_hex c2' ++ upper_hex c3' ->
  [a1; a2; a3; b1; b2; b3; c1; c2; c3]
  = [a1'; a2'; a3'; b1'; b2'; b3'; c1'; c2'; c3'].
Proof.
  intros H.
  assert (P : forall (x y : byte) (r r' : jsstring),
             upper_hex x ++ r = upper_hex y ++ r' -> x = y /\ r = r').
  { intros x y r r' E.
    destruct (upper_hex_digits x) as (h & l & Hx & _).
    destruct (upper_hex_digits y) as (h' & l' & Hy & _).
    rewrite Hx, Hy in E. inversion E; subst. split; [|reflexivity].
    apply upper_hex_inj. congruence. }
  apply app_inv_head in H.
  repeat (apply P in H; destruct H as [-> H]).
  apply app_inv_head in H.
  repeat (apply P in H; destruct H as [-> H]).
  apply app_inv_head in H.
  apply P in H; destruct H as [-> H].
  apply P in H; destruct H as [-> H].
  apply upper_hex_inj in H. now subst.
Qed.

Lemma next_bytes_eq (env : Env) (w : World) :
  next_bytes env w
  = [entropy env (drawn w); entropy env (drawn w + 1);
     entropy env (drawn w + 2); entropy env (drawn w + 3);
     entropy env (drawn w + 4); entropy env (drawn w + 5);
     entropy env (drawn w + 6); entropy env (drawn w + 7);
     entropy env (drawn w + 8)].
Proof.
  unfold next_bytes. cbn [seq map].
  repeat match goal with
         | |- context [entropy env (S ?n)] =>
             replace (S n) with (n + 1) by lia
         end.
  rewrite <- !Nat.add_assoc. reflexivity.
Qed.

Example sample_key_format :
  is_license_key (lit "TLDR-0B3055-7A9FC4-E90E33") = true
  /\ is_license_key (lit "TLDR-0b3055-7A9FC4-E90E33") = false
  /\ is_license_key (lit "TLDR-0B3055-7A9FC4-E90E3") = false
  /\ is_license_key (lit "TLDR-0B3055-7A9FC4-E90E333") = false
  /\ is_license_key (lit "TLDR-0B3055-7A9FC4E-90E33") = false.
Proof. repeat split; reflexivity. Qed.

(** ** /webhook *)

Lemma insert_license_run (row : License) (env : Env) (w : World) :
  insert_license row env w
  = if insert_license_fails env
    then (Val (no_answer Unavailable), log (EInsertLicense row) w)
    else if key_taken (key row) w
    then (Val (no_answer UniqueViolation), log (EInsertLicense row) w)
    else (Val {| data := None; error := None |},
          store_license row (log (EInsertLicense row) w)).
Proof.
  unfold insert_license, key_taken, log, store_license. run. cbn.
  destruct (insert_license_fails env); [reflexivity|].
  destruct (existsb _ _); reflexivity.
Qed.

Lemma next_key_advance (env : Env) (w : World) :
  generateLicenseKey env w = (Val (next_key env w), advance 9 w).
Proof.
  unfold next_key. rewrite generateLicenseKey_run. reflexivity.
Qed.

(** What a completed checkout does in server.js. *)
Lemma webhook_run (ev : StripeEvent) (env : Env) (w : World) :
  type ev = checkout_completed ->
  ServerJs.webhook (Verified ev) env w
  = let row := issued_license env w ev in
    let w1 := log (EInsertLicense row) (advance 9 w) in
    if insert_license_fails env || key_taken (key row) w
    then (Val failed_to_create, w1)
    else (Val received, store_license row w1).
Proof.
  intros T. unfold ServerJs.webhook, webhook_body, ServerJs.supabase.
  rewrite T, eqb_refl. unfold bind at 1. rewrite next_key_advance.
  unfold bind at 1, ask at 1. unfold bind at 1, ret at 1.
  unfold bind at 1. rewrite insert_license_run. cbv zeta.
  unfold issued_license. cbn [key].
  change (key_taken (next_key env w) (advance 9 w))
    with (key_taken (next_key env w) w).
  destruct (insert_license_fails env); [reflexivity|].
  destruct (key_taken (next_key env w) w); reflexivity.
Qed.

Lemma licenses_for_store (ref : jsstring) (row : License) (w : World) :
  licenses_for ref (store_license row w)
  = licenses_for ref w
    ++ (if JS.eqb (stripe_session_id row) ref then [row] else []).
Proof. unfold licenses_for, store_license. cbn. now rewrite filter_app. Qed.

Lemma key_taken_store (k : jsstring) (row : License) (w : World) :
  key_taken k (store_license row w) = key_taken k w || JS.eqb (key row) k.
Proof.
  unfold key_taken, store_license. cbn. rewrite existsb_app. cbn.
  now rewrite orb_false_r.
Qed.

Lemma store_lookups_log (e : event) (w : World) :
  store_lookups (log e w) = store_lookups w ++ (if is_select e then [e] else []).
Proof.
  unfold store_lookups, log. cbn. rewrite filter_app. cbn.
  now destruct (is_select e).
Qed.

(** C1 (as the code has it). /webhook never looks a License up by its
    transaction reference: each delivery of a completed checkout draws a new
    key and inserts a row. When the same event is delivered twice and both
    deliveries report success, the reference has two more License records
    than before, under two different keys. *)
Theorem redelivery_issues_second_license
        (ev : StripeEvent) (env1 env2 : Env) (w : World) :
  type ev = checkout_completed ->
  let first := ServerJs.webhook (Verified ev) env1 w in
  let second := ServerJs.webhook (Verified ev) env2 (snd first) in
  fst first = Val received ->
  fst second = Val received ->
  let row1 := issued_license env1 w ev in
  let row2 := issued_license env2 (snd first) ev in
  licenses_for (id (object ev)) (snd second)
  = licenses_for (id (object ev)) w ++ [row1; row2]
  /\ key row1 <> key row2
  /\ store_lookups (snd second) = store_lookups w
  /\ drawn (snd second) = drawn w + 18.
Proof.
  intros T. cbv zeta. rewrite (webhook_run ev env1 w T). cbv zeta.
  destruct (insert_license_fails env1 || _) eqn:C1;
    [intros H; discriminate H | intros _].
  cbn [snd]. rewrite (webhook_run ev env2 _ T). cbv zeta.
  destruct (insert_license_fails env2 || _) eqn:C2;
    [intros H; discriminate H | intros _].
  cbn [snd fst].
  set (row1 := issued_license env1 w ev) in *.
  set (w1 := store_license row1 (log (EInsertLicense row1) (advance 9 w))) in *.
  set (row2 := issued_license env2 w1 ev) in *.
  apply orb_false_iff in C2. destruct C2 as [_ C2].
  split; [|split; [|split]].
  - rewrite licenses_for_store. subst w1.
    change (licenses_for (id (object ev))
              (log (EInsertLicense row2)
                 (advance 9 (store_license row1
                    (log (EInsertLicense row1) (advance 9 w))))))
      with (licenses_for (id (object ev)) (store_license row1 w)).
    rewrite licenses_for_store.
    change (stripe_session_id row1) with (id (object ev)).
    change (stripe_session_id row2) with (id (object ev)).
    rewrite eqb_refl, <- app_assoc. reflexivity.
  - intros E. subst w1.
    change (key_taken (key row2)
              (store_license row1 (log (EInsertLicense row1) (advance 9 w))))
      with (key_taken (key row2) (store_license row1 w)) in C2.
    rewrite key_taken_store in C2. apply orb_false_iff in C2.
    destruct C2 as [_ C2]. rewrite E, eqb_refl in C2. discriminate C2.
  - subst w1.
    change (store_lookups
              (store_license row2
                 (log (EInsertLicense row2)
                    (advance 9 (store_license row1
                       (log (EInsertLicense row1) (advance 9 w)))))))
      with (store_lookups
              (log (EInsertLicense row2) (log (EInsertLicense row1) w))).
    rewrite !store_lookups_log. cbn. now rewrite !app_nil_r.
  - cbn. lia.
Qed.

Lemma redelivery_issues_second_license_witness :
  let first := ServerJs.webhook (Verified Sample.checkout)
                 Sample.env0 Sample.world1 in
  let second := ServerJs.webhook (Verified Sample.checkout)
                  Sample.env0 (snd first) in
  licenses_for (id (object Sample.checkout)) (snd second)
  = licenses_for (id (object Sample.checkout)) Sample.world1
    ++ [issued_license Sample.env0 Sample.world1 Sample.checkout;
        issued_license Sample.env0 (snd first) Sample.checkout].
Proof.
  exact (proj1 (@redelivery_issues_second_license Sample.checkout
                  Sample.env0 Sample.env0 Sample.world1
                  eq_refl eq_refl eq_refl)).
Defined.

(** C1, refuted as stated: the same completed checkout delivered twice to
    /webhook leaves two License records for its transaction reference; the
    second delivery drew a new key and inserted it, and no lookup was made. *)
Lemma redelivery_creates_duplicate :
  let first := ServerJs.webhook (Verified Sample.checkout)
                 Sample.env0 Sample.world0 in
  let second := ServerJs.webhook (Verified Sample.checkout)
                  Sample.env0 (snd first) in
  fst first = Val received
  /\ fst second = Val received
  /\ map key (licenses_for (lit "cs_test_3") (snd second))
     = [lit "TLDR-0B3055-7A9FC4-E90E33"; lit "TLDR-587DA2-C7EC11-365B80"]
  /\ store_lookups (snd second) = [].
Proof. repeat split; reflexivity. Qed.

(** *** The revision that mails the key *)

Lemma getSupabase_run (env : Env) (w : World) :
  SUPABASE_URL env = true -> getSupabase env w = (Val tt, w).
Proof. unfold getSupabase. run. now intros ->. Qed.

Lemma verifyLicense_lazy (k : jsstring) (env : Env) (w : World) :
  SUPABASE_URL env = true ->
  verifyLicense getSupabase k env w = verifyLicense ServerJs.supabase k env w.
Proof.
  intros H. unfold verifyLicense. unfold bind at 1 3.
  now rewrite (getSupabase_run env w H).
Qed.

Lemma send_license_run (k : jsstring) (to : option jsstring)
      (env : Env) (w : World) :
  try_catch (Mailing.send_license k to) (fun _ => ret tt) env w
  = (Val tt, match mailer env with
             | MailNoClient => w
             | _ => log (EMail to k) w
             end).
Proof.
  unfold Mailing.send_license, log. run. now destruct (mailer env).
Qed.

Lemma mailing_webhook_run (ev : StripeEvent) (env : Env) (w : World) :
  type ev = checkout_completed ->
  SUPABASE_URL env = true ->
  Mailing.webhook (Verified ev) env w
  = let row := issued_license env w ev in
    let w1 := log (EInsertLicense row) (advance 9 w) in
    if insert_license_fails env || key_taken (key row) w
    then (Val failed_to_create, w1)
    else (Val received, mailed env row (store_license row w1)).
Proof.
  intros T U. unfold Mailing.webhook, webhook_body.
  rewrite T, eqb_refl. unfold bind at 1. rewrite next_key_advance.
  unfold bind at 1, ask at 1. unfold bind at 1.
  rewrite (getSupabase_run env _ U).
  unfold bind at 1. rewrite insert_license_run. cbv zeta.
  unfold issued_license. cbn [key email].
  change (key_taken (next_key env w) (advance 9 w))
    with (key_taken (next_key env w) w).
  destruct (insert_license_fails env); [reflexivity|].
  destruct (key_taken (next_key env w) w); [reflexivity|].
  cbn [error orb]. unfold bind at 1. rewrite send_license_run.
  unfold mailed. cbn [key email]. now destruct (mailer env).
Qed.

Lemma key_free_no_rows (k : jsstring) (w : World) :
  key_taken k w = false -> active_rows k w = [].
Proof.
  unfold key_taken, active_rows.
  induction (licenses (db w)) as [|l ls IH]; [reflexivity|]. cbn.
  intros H. apply orb_false_iff in H. destruct H as [-> H]. cbn. now apply IH.
Qed.

Lemma active_rows_store (row : License) (w : World) :
  key_taken (key row) w = false -> active row = true ->
  active_rows (key row) (store_license row w) = [row].
Proof.
  intros F A. unfold active_rows, store_license. cbn [db licenses].
  rewrite filter_app. fold (active_rows (key row) w).
  rewrite (key_free_no_rows _ _ F). cbn. now rewrite eqb_refl, A.
Qed.

(** C9. In the revision that mails the key: when the insert of the License
    succeeds (the store is reachable and the key is new), /webhook answers
    [{ received: true }] whatever the mailer does, thrown errors included; the
    answer and the tables are those of a run in which the mail was sent, the
    new row is in [licenses], and [verifyLicense] afterwards returns that row,
    which is active. *)
Theorem mail_failure_leaves_issuance
        (ev : StripeEvent) (env : Env) (w : World) (m : mail_outcome) :
  type ev = checkout_completed ->
  SUPABASE_URL env = true ->
  insert_license_fails env = false ->
  key_taken (next_key env w) w = false ->
  let run := Mailing.webhook (Verified ev) (set_mailer m env) w in
  let sent := Mailing.webhook (Verified ev) (set_mailer MailSent env) w in
  let row := issued_license env w ev in
  fst run = Val received
  /\ fst run = fst sent
  /\ db (snd run) = db (snd sent)
  /\ In row (licenses (db (snd run)))
  /\ active row = true
  /\ forall env',
       SUPABASE_URL env' = true -> select_fails env' = false ->
       fst (verifyLicense getSupabase (key row) env' (snd run)) = Val (Some row).
Proof.
  intros T U I F. cbv zeta.
  rewrite !mailing_webhook_run by assumption. cbv zeta.
  change (insert_license_fails (set_mailer m env)) with (insert_license_fails env).
  change (insert_license_fails (set_mailer MailSent env))
    with (insert_license_fails env).
  change (issued_license (set_mailer m env) w ev) with (issued_license env w ev).
  change (issued_license (set_mailer MailSent env) w ev)
    with (issued_license env w ev).
  change (key (issued_license env w ev)) with (next_key env w).
  rewrite I, F. cbn [orb fst snd].
  set (row := issued_license env w ev).
  assert (D : forall e, db (mailed e row
                (store_license row (log (EInsertLicense row) (advance 9 w))))
              = db (store_license row w)).
  { intros e. unfold mailed. now destruct (mailer e). }
  split; [reflexivity|]. split; [reflexivity|]. split; [now rewrite !D|].
  split; [rewrite D; cbn; apply in_or_app; right; now left|].
  split; [reflexivity|].
  intros env' U' S'. rewrite (verifyLicense_lazy _ _ _ U'), verifyLicense_run.
  cbn [fst]. rewrite S'.
  assert (A : active_rows (next_key env w)
                (mailed (set_mailer m env) row
                   (store_license row (log (EInsertLicense row) (advance 9 w))))
              = [row]).
  { unfold active_rows. rewrite D. apply (active_rows_store row w F eq_refl). }
  change (key row) with (next_key env w). now rewrite A.
Qed.

Lemma mail_failure_leaves_issuance_witness :
  fst (Mailing.webhook (Verified Sample.checkout)
         (set_mailer MailThrows Sample.env0) Sample.world1)
  = Val received.
Proof.
  exact (proj1 (@mail_failure_leaves_issuance Sample.checkout Sample.env0
                  Sample.world1 MailThrows eq_refl eq_refl eq_refl eq_refl)).
Defined.

Example mail_throws_then_verify :
  let run := Mailing.webhook (Verified Sample.checkout)
               (set_mailer MailNoClient Sample.env0) Sample.world1 in
  fst run = Val received
  /\ fst (Mailing.verify (Some (lit "TLDR-0B3055-7A9FC4-E90E33"))
            Sample.env0 (snd run))
     = Val (answer 200 (BValid true)).
Proof. split; reflexivity. Qed.

(** ** JSON texts and white space *)

Lemma is_space_iff (c : N) :
  is_space c = true
  <-> ((9 <= c <= 13) \/ c = 32 \/ c = 160 \/ c = 5760 \/ (8192 <= c <= 8202)
       \/ c = 8232 \/ c = 8233 \/ c = 8239 \/ c = 8287 \/ c = 12288
       \/ c = 65279)%N.
Proof.
  unfold is_space.
  rewrite !orb_true_iff, !andb_true_iff, !N.eqb_eq, !N.leb_le. tauto.
Qed.

(** Decide the comparisons of [c] with constants in the goal, closing by
    arithmetic the branches that contradict what is known of [c]. *)
Ltac compare c :=
  repeat match goal with
         | |- context [N.eqb c ?k] =>
             destruct (N.eqb_spec c k) as [?E|?E]; [exfalso; lia|]; clear E
         | |- context [N.leb ?a ?b] =>
             destruct (N.leb_spec a b); cbn [andb orb]
         | |- context [N.ltb ?a ?b] =>
             destruct (N.ltb_spec a b); cbn [andb orb]
         end.

Lemma start_char_space (c : N) :
  is_space c = true ->
  JSON.start_char c
  = if JSON.is_json_ws c then Some (JSON.LStart, []) else None.
Proof.
  intros H. apply is_space_iff in H. unfold JSON.start_char.
  destruct (JSON.is_json_ws c); [reflexivity|].
  unfold JSON.is_digit. compare c; try reflexivity; exfalso; lia.
Qed.

Unset Implicit Arguments.

Lemma json_ws_is_space (c : N) : JSON.is_json_ws c = true -> is_space c = true.
Proof.
  unfold JSON.is_json_ws. rewrite !orb_true_iff, !N.eqb_eq, is_space_iff. lia.
Qed.

Lemma literal_letters (l : JSON.literal) (pos : nat) (x : N) :
  nth_error (JSON.literal_text l) pos = Some x -> is_space x = false.
Proof.
  destruct l; do 6 (destruct pos as [|pos]; cbn; try discriminate;
                    try (intros H; inversion H; subst; reflexivity)).
Qed.

Lemma num_step_space (ns : JSON.num_state) (c : N) :
  is_space c = true -> JSON.num_step ns c = None.
Proof.
  intros H. apply is_space_iff in H.
  destruct ns; unfold JSON.num_step, JSON.is_digit, JSON.is_e;
    compare c; try reflexivity; exfalso; lia.
Qed.

Lemma hex_value_space (c : N) : is_space c = true -> JSON.hex_value c = None.
Proof.
  intros H. apply is_space_iff in H.
  unfold JSON.hex_value, JSON.is_digit. compare c; try reflexivity; exfalso; lia.
Qed.

Lemma escape_char_space (c : N) :
  is_space c = true -> JSON.escape_char c = None /\ c <> 117%N.
Proof.
  intros H. apply is_space_iff in H. split; [|lia].
  unfold JSON.escape_char. compare c; reflexivity.
Qed.

(** A space after the text changes nothing, or was not allowed. *)
Lemma step_space_finish (st st' : JSON.lex_state) (c : N)
      (ts r : list JSON.token) :
  is_space c = true ->
  JSON.step st c = Some (st', ts) -> JSON.finish st' = Some r ->
  JSON.finish st = Some (ts ++ r).
Proof.
  intros H S F. destruct st as [|acc|acc|acc n v|ns acc|l pos]; cbn in S.
  - rewrite (start_char_space _ H) in S.
    destruct (JSON.is_json_ws c); inversion S; subst. exact F.
  - apply is_space_iff in H. revert S. compare c; intros S; inversion S; subst;
      discriminate F.
  - destruct (escape_char_space _ H) as [E U]. rewrite E in S.
    apply N.eqb_neq in U. rewrite U in S. discriminate S.
  - rewrite (hex_value_space _ H) in S. discriminate S.
  - rewrite (num_step_space _ _ H), (start_char_space _ H) in S.
    destruct (JSON.num_accepting ns) eqn:A; [|discriminate S].
    destruct (JSON.is_json_ws c); inversion S; subst.
    cbn in *. rewrite A. now inversion F.
  - destruct (nth_error _ _) as [x|] eqn:X; [|discriminate S].
    destruct (N.eqb_spec c x) as [->|]; [|discriminate S].
    apply literal_letters in X. congruence.
Qed.

Lemma lex_from_space_end (s : jsstring) (c : N) :
  is_space c = true ->
  forall st t, JSON.lex_from st (s ++ [c]) = Some t -> JSON.lex_from st s = Some t.
Proof.
  intros H. induction s as [|a s IH]; intros st t; cbn.
  - destruct (JSON.step st c) as [[st' ts]|] eqn:S; [|discriminate].
    destruct (JSON.finish st') as [r|] eqn:F; [|discriminate].
    intros E. inversion E; subst. eapply step_space_finish; eauto.
  - destruct (JSON.step st a) as [[st' ts]|]; [|discriminate].
    destruct (JSON.lex_from st' (s ++ [c])) as [r|] eqn:L; [|discriminate].
    now rewrite (IH _ _ L).
Qed.

Lemma lex_space_start (s : jsstring) (c : N) (t : list JSON.token) :
  is_space c = true ->
  JSON.lex (c :: s) = Some t -> JSON.lex s = Some t.
Proof.
  intros H. unfold JSON.lex. cbn. rewrite (start_char_space _ H).
  destruct (JSON.is_json_ws c); [|discriminate].
  now destruct (JSON.lex_from JSON.LStart s).
Qed.

Lemma lex_trimStart (s : jsstring) (t : list JSON.token) :
  JSON.lex s = Some t -> JSON.lex (trimStart s) = Some t.
Proof.
  induction s as [|c s IH]; [trivial|]. cbn [trimStart].
  destruct (is_space c) eqn:H; [|trivial].
  intros L. apply IH. eapply lex_space_start; eauto.
Qed.

Lemma lex_trimEnd (s : jsstring) (t : list JSON.token) :
  JSON.lex s = Some t -> JSON.lex (trimEnd s) = Some t.
Proof.
  unfold trimEnd. rewrite <- (rev_involutive s) at 1.
  induction (rev s) as [|c r IH]; [trivial|]. cbn [trimStart rev].
  destruct (is_space c) eqn:H; [|trivial].
  intros L. apply IH. unfold JSON.lex in *. eapply lex_from_space_end; eauto.
Qed.

Lemma parse_trim (j : jsstring) (v : JSON.json) :
  JSON.parse j = Some v -> JSON.parse (trim j) = Some v.
Proof.
  unfold JSON.parse, trim. destruct (JSON.lex j) as [t|] eqn:L; [|discriminate].
  now rewrite (lex_trimEnd _ _ (lex_trimStart _ _ L)).
Qed.

(** *** trim *)

Lemma trimStart_blank (ws y : jsstring) :
  blank ws = true -> trimStart (ws ++ y) = trimStart y.
Proof.
  induction ws as [|c ws IH]; [reflexivity|]. cbn.
  intros H. apply andb_true_iff in H. destruct H as [-> H]. now apply IH.
Qed.

Lemma trimStart_head (s : jsstring) (c : N) (r : jsstring) :
  trimStart s = c :: r -> is_space c = false.
Proof.
  induction s as [|a s IH]; [discriminate|]. cbn.
  destruct (is_space a) eqn:A; [exact IH|]. intros E. now inversion E; subst.
Qed.

Lemma trimStart_app (s y : jsstring) (c : N) (r : jsstring) :
  trimStart s = c :: r -> trimStart (s ++ y) = trimStart s ++ y.
Proof.
  induction s as [|a s IH]; [discriminate|]. cbn.
  destruct (is_space a); [exact IH | reflexivity].
Qed.

Lemma trimStart_fixed (s : jsstring) (c : N) (r : jsstring) :
  s = c :: r -> is_space c = false -> trimStart s = s.
Proof. intros -> H. cbn. now rewrite H. Qed.

Lemma trimStart_idem (s : jsstring) : trimStart (trimStart s) = trimStart s.
Proof.
  destruct (trimStart s) as [|c r] eqn:E; [reflexivity|].
  apply (trimStart_fixed _ c r eq_refl (trimStart_head _ _ _ E)).
Qed.

Lemma blank_rev (ws : jsstring) : blank (rev ws) = blank ws.
Proof.
  unfold blank. induction ws as [|c ws IH]; [reflexivity|]. cbn.
  rewrite forallb_app, IH. cbn. rewrite andb_true_r. apply andb_comm.
Qed.

Lemma trimEnd_blank (y ws : jsstring) :
  blank ws = true -> trimEnd (y ++ ws) = trimEnd y.
Proof.
  intros H. unfold trimEnd. rewrite rev_app_distr, trimStart_blank; trivial.
  now rewrite blank_rev.
Qed.

Lemma trimEnd_last (s : jsstring) (c : N) :
  is_space c = false -> trimEnd (s ++ [c]) = s ++ [c].
Proof.
  intros H. unfold trimEnd. rewrite rev_app_distr. cbn. rewrite H. cbn.
  now rewrite rev_involutive.
Qed.

Lemma trimEnd_idem (s : jsstring) : trimEnd (trimEnd s) = trimEnd s.
Proof. unfold trimEnd. now rewrite rev_involutive, trimStart_idem. Qed.

Lemma trimEnd_head (s : jsstring) (c : N) (r : jsstring) :
  s = c :: r -> is_space c = false -> exists r', trimEnd s = c :: r'.
Proof.
  intros -> H. revert c H. induction r as [|a r IH] using rev_ind; intros c H.
  - exists []. apply (trimEnd_last [] _ H).
  - destruct (is_space a) eqn:A.
    + rewrite app_comm_cons, (trimEnd_blank _ [a]); [now apply IH|].
      cbn. now rewrite A.
    + exists (r ++ [a]). rewrite app_comm_cons. now apply trimEnd_last.
Qed.

Lemma trim_idem (s : jsstring) : trim (trim s) = trim s.
Proof.
  unfold trim. destruct (trimStart s) as [|c r] eqn:E; [reflexivity|].
  pose proof (trimStart_head _ _ _ E) as Hc.
  destruct (trimEnd_head (c :: r) c r eq_refl Hc) as [r' E'].
  rewrite E', (trimStart_fixed (c :: r') c r' eq_refl Hc), <- E'.
  apply trimEnd_idem.
Qed.

(** *** The three replacements *)

Lemma fold_case_backtick (c : N) : fold_case c = backtick <-> c = backtick.
Proof.
  unfold fold_case, backtick.
  destruct (N.leb_spec 97 c); destruct (N.leb_spec c 122); cbn; lia.
Qed.

Lemma fold_case_j (c : N) : fold_case c = 74%N <-> c = 74%N \/ c = 106%N.
Proof.
  unfold fold_case.
  destruct (N.leb_spec 97 c); destruct (N.leb_spec c 122); cbn; lia.
Qed.

Lemma fold_case_space (c : N) : is_space c = true -> fold_case c = c.
Proof.
  intros H. apply is_space_iff in H. unfold fold_case.
  destruct (N.leb_spec 97 c); destruct (N.leb_spec c 122); cbn; trivial; lia.
Qed.

Lemma strip_prefix_ci_app (p x r : jsstring) :
  strip_prefix_ci p x = Some [] -> strip_prefix_ci p (x ++ r) = Some r.
Proof.
  revert x. induction p as [|a p IH]; intros x; cbn.
  - intros E. now inversion E; subst.
  - destruct x as [|b x]; [discriminate|]. cbn.
    destruct (fold_case a =? fold_case b)%N; [apply IH | discriminate].
Qed.

Lemma strip_prefix_ci_none (p q t : jsstring) :
  strip_prefix_ci p t = None -> strip_prefix_ci (p ++ q) t = None.
Proof.
  revert t. induction p as [|a p IH]; intros t; cbn; [discriminate|].
  destruct t as [|b t]; [reflexivity|].
  destruct (fold_case a =? fold_case b)%N; [apply IH | reflexivity].
Qed.

(** A string whose first character is not a backtick has no opening fence. *)
Lemma no_fence_prefix (c : N) (r : jsstring) :
  c <> backtick -> strip_prefix_ci fence (c :: r) = None.
Proof.
  intros H. unfold fence. cbn [strip_prefix_ci].
  destruct (N.eqb_spec (fold_case backtick) (fold_case c)) as [E|];
    [|reflexivity].
  exfalso. apply H. apply (proj1 (fold_case_backtick c)). now rewrite <- E.
Qed.

(** A string that starts, after spaces, with something else than j has no
    language tag. *)
Lemma no_json_prefix (s : jsstring) (c : N) (r : jsstring) :
  trimStart s = c :: r -> fold_case c <> 74%N ->
  strip_prefix_ci (lit "json") s = None.
Proof.
  destruct s as [|a s]; [discriminate|]. cbn [trimStart].
  intros E H. change (lit "json") with [106; 115; 111; 110]%N.
  cbn [strip_prefix_ci]. change (fold_case 106) with 74%N.
  destruct (N.eqb_spec 74 (fold_case a)) as [J|]; [|reflexivity]. exfalso.
  destruct (is_space a) eqn:A.
  - rewrite (fold_case_space _ A) in J. subst a. discriminate A.
  - inversion E; subst. now apply H.
Qed.

Lemma strip_prefix_ci_skipn (p s rest : jsstring) :
  strip_prefix_ci p s = Some rest -> rest = skipn (List.length p) s.
Proof.
  revert s. induction p as [|a p IH]; intros s; cbn.
  - intros E. now inversion E.
  - destruct s as [|b s]; [discriminate|].
    destruct (fold_case a =? fold_case b)%N; [apply IH | discriminate].
Qed.

Lemma closes_here_fence_end (x : jsstring) (c : N) :
  closes_here (c :: x ++ fence) = false.
Proof.
  unfold closes_here.
  destruct (strip_prefix_ci fence (c :: x ++ fence)) as [rest|] eqn:E;
    [|reflexivity].
  apply strip_prefix_ci_skipn in E. subst rest.
  replace (c :: x ++ fence) with ((c :: x ++ [backtick; backtick]) ++ [backtick])
    by (cbn; now rewrite <- app_assoc).
  rewrite skipn_app.
  replace (List.length fence - List.length (c :: x ++ [backtick; backtick]))
    with 0
    by (unfold fence; cbn [List.length]; rewrite length_app;
        cbn [List.length]; lia).
  rewrite forallb_app. cbn. apply andb_false_r.
Qed.

Lemma replace_trailing_fence (x : jsstring) : replace_trailing (x ++ fence) = x.
Proof.
  induction x as [|c x IH]; [reflexivity|].
  cbn [app replace_trailing]. rewrite closes_here_fence_end. now rewrite IH.
Qed.

(** *** The first and the last character of a JSON text *)

Lemma start_char_some (c : N) (x : JSON.lex_state * list JSON.token) :
  JSON.start_char c = Some x -> c <> backtick /\ fold_case c <> 74%N.
Proof.
  intros H. split.
  - intros ->. discriminate H.
  - intros E. apply fold_case_j in E. destruct E as [-> | ->]; discriminate H.
Qed.

Lemma parse_first_char (j : jsstring) (v : JSON.json) :
  JSON.parse j = Some v ->
  exists c r, trimStart j = c :: r
              /\ is_space c = false /\ c <> backtick /\ fold_case c <> 74%N.
Proof.
  unfold JSON.parse. destruct (JSON.lex j) as [t|] eqn:L; [|discriminate].
  intros P. apply lex_trimStart in L.
  destruct (trimStart j) as [|c r] eqn:E.
  - cbn in L. inversion L; subst. discriminate P.
  - exists c, r. split; [reflexivity|]. split; [exact (trimStart_head _ _ _ E)|].
    unfold JSON.lex in L. cbn in L.
    destruct (JSON.start_char c) as [x|] eqn:S; [|discriminate L].
    exact (start_char_some _ _ S).
Qed.

Lemma step_backtick_finish (st st' : JSON.lex_state) (ts : list JSON.token) :
  JSON.step st backtick = Some (st', ts) -> JSON.finish st' = None.
Proof.
  destruct st as [|acc|acc|acc n v|ns acc|l pos]; cbn.
  - discriminate.
  - intros E. now inversion E.
  - discriminate.
  - discriminate.
  - destruct ns; cbn; discriminate.
  - destruct l; do 6 (destruct pos as [|pos]; cbn; try discriminate).
Qed.

Lemma lex_from_backtick_end (s : jsstring) (st : JSON.lex_state) :
  JSON.lex_from st (s ++ [backtick]) = None.
Proof.
  revert st. induction s as [|a s IH]; intros st; cbn [app JSON.lex_from].
  - destruct (JSON.step st backtick) as [[st' ts]|] eqn:S; [|reflexivity].
    cbn [JSON.lex_from]. now rewrite (step_backtick_finish _ _ _ S).
  - destruct (JSON.step st a) as [[st' ts]|]; [|reflexivity]. now rewrite IH.
Qed.

(** *** Fenced and unfenced content *)

Lemma fenced_trimmed (tag ws1 j ws2 : jsstring) :
  trim (fenced tag ws1 j ws2) = fenced tag ws1 j ws2.
Proof.
  unfold trim, fenced, fence. cbn [app trimStart].
  change (is_space backtick) with false. cbv iota.
  replace (backtick :: backtick :: backtick
             :: tag ++ ws1 ++ j ++ ws2 ++ [backtick; backtick; backtick])
    with ((backtick :: backtick :: backtick
             :: tag ++ ws1 ++ j ++ ws2 ++ [backtick; backtick]) ++ [backtick])
    by (cbn [app]; rewrite <- !app_assoc; reflexivity).
  now apply trimEnd_last.
Qed.

(** After the opening fence (and its tag) is gone. *)
Lemma body_unfenced (ws1 j ws2 : jsstring) (c : N) (r : jsstring) :
  blank ws1 = true -> blank ws2 = true ->
  trimStart j = c :: r -> c <> backtick ->
  trim (replace_trailing
          (replace_leading fence (trimStart (ws1 ++ j ++ ws2 ++ fence))))
  = trim j.
Proof.
  intros B1 B2 E C.
  rewrite (trimStart_blank _ _ B1), (trimStart_app _ _ _ _ E).
  assert (P : strip_prefix_ci fence (trimStart j ++ ws2 ++ fence) = None)
    by (rewrite E; now apply no_fence_prefix).
  unfold replace_leading. rewrite P, app_assoc, replace_trailing_fence.
  unfold trim.
  rewrite (trimStart_app (trimStart j) ws2 c r)
    by (now rewrite trimStart_idem).
  rewrite trimStart_idem. now apply trimEnd_blank.
Qed.

Lemma strip_fences_fenced (tag ws1 j ws2 : jsstring) (c : N) (r : jsstring) :
  tag = [] \/ is_json_tag tag = true ->
  blank ws1 = true -> blank ws2 = true ->
  trimStart j = c :: r -> c <> backtick -> fold_case c <> 74%N ->
  strip_fences (fenced tag ws1 j ws2) = trim j.
Proof.
  intros T B1 B2 E C J. unfold strip_fences. rewrite fenced_trimmed.
  destruct T as [-> | T].
  - assert (N1 : replace_leading (fence ++ lit "json") (fenced [] ws1 j ws2)
                 = fenced [] ws1 j ws2).
    { unfold replace_leading, fenced, fence. cbn [app strip_prefix_ci].
      rewrite !N.eqb_refl.
      rewrite (no_json_prefix (ws1 ++ j ++ ws2 ++ [backtick; backtick; backtick]) c
                 (r ++ ws2 ++ [backtick; backtick; backtick])); trivial.
      rewrite (trimStart_blank _ _ B1), (trimStart_app _ _ _ _ E), E.
      reflexivity. }
    rewrite N1.
    assert (N2 : replace_leading fence (fenced [] ws1 j ws2)
                 = trimStart (ws1 ++ j ++ ws2 ++ fence)).
    { unfold replace_leading, fenced, fence. cbn [app strip_prefix_ci].
      now rewrite !N.eqb_refl. }
    rewrite N2.
    assert (N3 : replace_leading fence (trimStart (ws1 ++ j ++ ws2 ++ fence))
                 = trimStart (ws1 ++ j ++ ws2 ++ fence)).
    { rewrite (trimStart_blank _ _ B1), (trimStart_app _ _ _ _ E).
      unfold replace_leading. rewrite E. cbn [app].
      now rewrite (no_fence_prefix _ _ C). }
    rewrite <- N3. now apply (body_unfenced ws1 j ws2 c r B1 B2 E C).
  - assert (N1 : replace_leading (fence ++ lit "json") (fenced tag ws1 j ws2)
                 = trimStart (ws1 ++ j ++ ws2 ++ fence)).
    { unfold replace_leading, fenced, fence. cbn [app strip_prefix_ci].
      rewrite !N.eqb_refl. unfold is_json_tag in T.
      destruct (strip_prefix_ci (lit "json") tag) as [[|]|] eqn:S;
        try discriminate T.
      now rewrite (strip_prefix_ci_app _ _ _ S). }
    rewrite N1. now apply (body_unfenced ws1 j ws2 c r B1 B2 E C).
Qed.

Lemma strip_prefix_ci_fence (q rest : jsstring) :
  strip_prefix_ci fence q = Some rest -> q = fence ++ rest.
Proof.
  unfold fence. intros H.
  destruct q as [|b1 q]; [discriminate H|]. cbn [strip_prefix_ci] in H.
  destruct (N.eqb_spec (fold_case backtick) (fold_case b1)) as [E1|];
    [|discriminate H].
  destruct q as [|b2 q]; [discriminate H|]. cbn [strip_prefix_ci] in H.
  destruct (N.eqb_spec (fold_case backtick) (fold_case b2)) as [E2|];
    [|discriminate H].
  destruct q as [|b3 q]; [discriminate H|]. cbn [strip_prefix_ci] in H.
  destruct (N.eqb_spec (fold_case backtick) (fold_case b3)) as [E3|];
    [|discriminate H].
  inversion H; subst. change (fold_case backtick) with backtick in *.
  symmetry in E1, E2, E3.
  apply (proj1 (fold_case_backtick _)) in E1, E2, E3. subst. reflexivity.
Qed.

(** A trimmed string that does not end with a fence: the closing pattern
    matches nowhere. *)
Lemma no_closing_fence (t : jsstring) :
  trimEnd t = t -> strip_prefix_ci fence (rev t) = None ->
  forall p q, t = p ++ q -> closes_here q = false.
Proof.
  intros T F p q ->. unfold closes_here.
  destruct (strip_prefix_ci fence q) as [ws|] eqn:S; [|reflexivity].
  apply strip_prefix_ci_fence in S. subst q.
  destruct (forallb is_space ws) eqn:B; [exfalso|reflexivity].
  destruct ws as [|a ws _] using rev_ind.
  - rewrite app_nil_r, rev_app_distr in F. cbn in F. discriminate F.
  - rewrite forallb_app in B. apply andb_true_iff in B. destruct B as [_ B].
    cbn in B. rewrite andb_true_r in B.
    rewrite !app_assoc in T. rewrite (trimEnd_blank _ [a]) in T
      by (cbn; now rewrite B).
    apply (f_equal (@List.length N)) in T.
    assert (L : List.length (trimEnd ((p ++ fence) ++ ws))
                <= List.length ((p ++ fence) ++ ws)).
    { unfold trimEnd. rewrite length_rev.
      rewrite <- (length_rev ((p ++ fence) ++ ws)).
      generalize (rev ((p ++ fence) ++ ws)). intros l.
      induction l as [|x l IH]; cbn; [lia|].
      destruct (is_space x); cbn; lia. }
    rewrite T in L. rewrite (length_app _ [a]) in L. cbn in L. lia.
Qed.

Lemma replace_trailing_none (t : jsstring) :
  (forall p q, t = p ++ q -> closes_here q = false) -> replace_trailing t = t.
Proof.
  induction t as [|c t IH]; intros H.
  - reflexivity.
  - cbn [replace_trailing]. rewrite (H [] (c :: t) eq_refl). f_equal.
    apply IH. intros p q ->. apply (H (c :: p) q). reflexivity.
Qed.

Lemma trim_trimEnd (s : jsstring) : trimEnd (trim s) = trim s.
Proof. unfold trim. apply trimEnd_idem. Qed.

Lemma strip_fences_unfenced (s : jsstring) :
  unfenced s -> strip_fences s = trim s.
Proof.
  intros [A Z]. unfold strip_fences, replace_leading.
  rewrite (strip_prefix_ci_none _ (lit "json") _ A), A.
  rewrite (replace_trailing_none _ (no_closing_fence _ (trim_trimEnd s) Z)).
  apply trim_idem.
Qed.

Lemma json_text_unfenced (j : jsstring) (v : JSON.json) :
  JSON.parse j = Some v -> unfenced j.
Proof.
  intros P. pose proof (parse_trim _ _ P) as P'.
  destruct (parse_first_char _ _ P) as (c & r & E & Sp & C & _).
  split.
  - unfold trim. destruct (trimEnd_head (trimStart j) c r E Sp) as [r' ->].
    now apply no_fence_prefix.
  - destruct (rev (trim j)) as [|z l] eqn:R; [reflexivity|].
    destruct (N.eq_dec z backtick) as [->|Z]; [|now apply no_fence_prefix].
    exfalso. apply (f_equal (@rev N)) in R. rewrite rev_involutive in R.
    cbn [rev] in R. unfold JSON.parse, JSON.lex in P'. rewrite R in P'.
    now rewrite lex_from_backtick_end in P'.
Qed.

(** C8 (as the code has it). For a JSON text j: the content made of an opening
    fence, the tag json (in any case) or no tag, spaces, j, spaces and a
    closing fence is normalised to j without its surrounding spaces, and
    parses to what j parses to. Content without fences is not left as it is
    but trimmed: the normalisation returns [s.trim()]; for a JSON text this
    again parses to the same value. *)
Theorem strip_fences_keeps_json (j : jsstring) (v : JSON.json) :
  JSON.parse j = Some v ->
  (forall tag ws1 ws2,
      tag = [] \/ is_json_tag tag = true ->
      blank ws1 = true -> blank ws2 = true ->
      strip_fences (fenced tag ws1 j ws2) = trim j
      /\ JSON.parse (strip_fences (fenced tag ws1 j ws2)) = JSON.parse j)
  /\ (forall s, unfenced s -> strip_fences s = trim s)
  /\ JSON.parse (strip_fences j) = JSON.parse j.
Proof.
  intros P. pose proof (parse_trim _ _ P) as P'.
  destruct (parse_first_char _ _ P) as (c & r & E & _ & C & J).
  split; [|split].
  - intros tag ws1 ws2 T B1 B2.
    rewrite (strip_fences_fenced tag ws1 j ws2 c r T B1 B2 E C J).
    split; [reflexivity | congruence].
  - exact strip_fences_unfenced.
  - rewrite (strip_fences_unfenced _ (json_text_unfenced _ _ P)). congruence.
Qed.

Lemma strip_fences_keeps_json_witness :
  JSON.parse (strip_fences (fenced (lit "JSON") [10%N] (lit " [1, 2]") [10%N]))
  = JSON.parse (lit " [1, 2]").
Proof.
  refine (proj2 (proj1 (strip_fences_keeps_json (lit " [1, 2]") _ eq_refl)
                   (lit "JSON") [10%N] [10%N] _ eq_refl eq_refl)).
  right. reflexivity.
Defined.

(** C8, refuted as stated: content without any fence is changed by the
    normalisation when it has spaces around it. *)
Lemma unfenced_content_is_trimmed :
  let s := lit " [1, 2]" ++ [10%N] in
  unfenced s
  /\ strip_fences s = lit "[1, 2]"
  /\ strip_fences s <> s.
Proof.
  split; [split; reflexivity|]. split; [reflexivity | discriminate].
Qed.

Example fenced_variants :
  strip_fences (lit "```json
{}
```") = lit "{}"
  /\ strip_fences (lit "```
{}
```") = lit "{}"
  /\ strip_fences (lit "```JSON {}```  ") = lit "{}"
  /\ strip_fences (lit "{}") = lit "{}"
  /\ strip_fences (lit "Sure! ```json {} ```") = lit "Sure! ```json {}".
Proof. repeat split; reflexivity. Qed.


(** ** How often two generated keys are the same *)

Section Counting.

Variable A : Type.
Variable same : A -> A -> bool.
Hypothesis same_spec : forall x y, same x y = true <-> x = y.
Variable univ : list A.
Hypothesis univ_nodup : NoDup univ.

Lemma words_length (n : nat) (t : list A) :
  In t (words A univ n) -> List.length t = n.
Proof.
  revert t. induction n as [|n IH]; intros t; cbn.
  - intros [<- | []]. reflexivity.
  - rewrite in_flat_map. intros (t' & Ht' & Hin).
    apply in_map_iff in Hin. destruct Hin as (x & <- & _).
    cbn. now rewrite (IH _ Ht').
Qed.

Lemma words_count (n : nat) :
  List.length (words A univ n) = List.length univ ^ n.
Proof.
  induction n as [|n IH]; [reflexivity|]. cbn [words Nat.pow].
  rewrite <- IH. generalize (words A univ n). intros W.
  induction W as [|t W IHW]; cbn; [lia|].
  rewrite length_app, length_map, IHW. lia.
Qed.

Lemma at_most_one (a : A) (u : list A) :
  NoDup u -> List.length (filter (fun x => same x a) u) <= 1.
Proof.
  induction 1 as [|x u Hx Hu IHu]; cbn; [lia|].
  destruct (same x a) eqn:E; [|exact IHu]. cbn.
  apply same_spec in E. subst x.
  assert (Z : filter (fun x => same x a) u = []).
  { clear IHu Hu. induction u as [|y u IHu]; [reflexivity|]. cbn.
    destruct (same y a) eqn:E.
    - apply same_spec in E. subst y. exfalso. apply Hx. now left.
    - apply IHu. intros H. apply Hx. now right. }
  rewrite Z. cbn. lia.
Qed.

(** At most [length t] values of [u] occur in [t]. *)
Lemma occurring_values (t u : list A) :
  NoDup u ->
  List.length (filter (fun x => existsb (same x) t) u) <= List.length t.
Proof.
  intros N. induction t as [|a t IH]; cbn.
  - clear N. induction u as [|x u IHu]; [reflexivity | exact IHu].
  - pose proof (at_most_one a u N) as One.
    assert (Split :
               List.length (filter (fun x => same x a || existsb (same x) t) u)
               <= List.length (filter (fun x => same x a) u)
                  + List.length (filter (fun x => existsb (same x) t) u)).
    { clear. induction u as [|x u IHu]; cbn; [lia|].
      destruct (same x a); destruct (existsb (same x) t); cbn; lia. }
    lia.
Qed.

(** The extensions of [t] by one value that have a repeat. *)
Lemma repeats_above (t : list A) :
  List.length (filter (has_repeat A same) (map (fun x => x :: t) univ))
  <= List.length t + (if has_repeat A same t then List.length univ else 0).
Proof.
  pose proof (occurring_values t univ univ_nodup) as O. revert O.
  generalize univ. intros u O.
  assert (E : List.length (filter (has_repeat A same) (map (fun x => x :: t) u))
              = List.length (filter (fun x => existsb (same x) t
                                              || has_repeat A same t) u)).
  { clear O. induction u as [|x u IHu]; [reflexivity|]. cbn [map filter].
    change (has_repeat A same (x :: t))
      with (existsb (same x) t || has_repeat A same t).
    destruct (existsb (same x) t || has_repeat A same t); cbn [List.length];
      now rewrite IHu. }
  rewrite E. clear E. destruct (has_repeat A same t).
  - clear O. induction u as [|x u IHu]; cbn; [lia|].
    rewrite orb_true_r. cbn. lia.
  - etransitivity; [|rewrite Nat.add_0_r; exact O]. clear O.
    induction u as [|x u IHu]; cbn; [lia|]. rewrite orb_false_r.
    destruct (existsb (same x) t); cbn; lia.
Qed.

Lemma repeats_step (n : nat) :
  List.length (filter (has_repeat A same) (words A univ (S n)))
  <= n * List.length (words A univ n)
     + List.length univ
       * List.length (filter (has_repeat A same) (words A univ n)).
Proof.
  cbn [words]. pose proof (words_length n) as L. revert L.
  generalize (words A univ n). intros W L.
  induction W as [|t W IH]; cbn [flat_map filter List.length]; [lia|].
  rewrite filter_app, length_app.
  pose proof (repeats_above t) as R. rewrite (L t (or_introl eq_refl)) in R.
  assert (IH' := IH (fun t' H => L t' (or_intror H))).
  destruct (has_repeat A same t); cbn [List.length]; lia.
Qed.

(** Of the [m ^ n] lists of [n] values, at most [n (n - 1) / 2 * m ^ (n - 1)]
    have a repeat. *)
Lemma repeats_bound (n : nat) :
  2 * List.length (filter (has_repeat A same) (words A univ n))
  <= n * (n - 1) * List.length univ ^ (n - 1).
Proof.
  induction n as [|n IH]; [cbn; lia|].
  pose proof (repeats_step n) as Step. rewrite words_count in Step.
  replace (S n - 1) with n by lia.
  destruct n as [|m].
  - cbn in *. lia.
  - replace (S m - 1) with m in IH by lia.
    cbn [Nat.pow] in *.
    set (M := List.length univ) in *. set (P := M ^ m) in *.
    set (c := List.length (filter (has_repeat A same) (words A univ (S m)))) in *.
    set (c' := List.length (filter (has_repeat A same) (words A univ (S (S m))))) in *.
    assert (H : M * (2 * c) <= M * (S m * m * P))
      by (apply Nat.mul_le_mono_l; exact IH).
    nia.
Qed.

End Counting.

Section Distinct.

Variable A : Type.
Variable univ : list A.
Hypothesis univ_nodup : NoDup univ.

Lemma words_nodup (n : nat) : NoDup (words A univ n).
Proof.
  induction n as [|n IH]; cbn [words].
  - constructor; [intros [] | constructor].
  - revert IH. generalize (words A univ n). intros W.
    induction 1 as [|t W Ht HW IH]; cbn [flat_map]; [constructor|].
    apply NoDup_app.
    + apply NoDup_map_NoDup_ForallPairs; [|exact univ_nodup].
      intros x y _ _ E. now inversion E.
    + exact IH.
    + intros a Ha Hb. apply in_map_iff in Ha. destruct Ha as (x & <- & _).
      apply in_flat_map in Hb. destruct Hb as (t' & Ht' & Hb).
      apply in_map_iff in Hb. destruct Hb as (y & E & _).
      inversion E; subst. now apply Ht.
Qed.

End Distinct.

Lemma has_repeat_map (A B : Type) (sameA : A -> A -> bool)
      (sameB : B -> B -> bool) (f : A -> B) (l : list A) :
  (forall x y, In x l -> In y l -> sameB (f x) (f y) = sameA x y) ->
  has_repeat B sameB (map f l) = has_repeat A sameA l.
Proof.
  induction l as [|x l IH]; intros H; [reflexivity|]. cbn.
  rewrite IH by (intros; apply H; now right). f_equal.
  assert (E : forall l', incl l' l ->
                existsb (sameB (f x)) (map f l') = existsb (sameA x) l').
  { induction l' as [|y l' IH']; intros I; [reflexivity|]. cbn.
    rewrite IH' by (intros z Hz; apply I; now right).
    rewrite H; [reflexivity | now left | right; apply I; now left]. }
  apply E, incl_refl.
Qed.

Lemma all_bytes_nodup : NoDup all_bytes.
Proof.
  apply (NoDup_map_inv Byte.to_nat).
  replace (map Byte.to_nat all_bytes) with (seq 0 256) by (vm_compute; reflexivity).
  apply seq_NoDup.
Qed.

Lemma all_bytes_complete (b : byte) : In b all_bytes.
Proof.
  unfold all_bytes. apply in_map_iff. exists (Byte.to_nat b). split.
  - now rewrite Byte.of_to_nat.
  - apply in_seq. pose proof (Byte.to_nat_bounded b). lia.
Qed.

Lemma seeds_count : N.of_nat (List.length seeds) = (2 ^ 72)%N.
Proof.
  unfold seeds. rewrite words_count.
  replace (List.length all_bytes) with (N.to_nat 256) by (vm_compute; reflexivity).
  rewrite <- (Nat2N.id 9) at 1.
  rewrite <- N2Nat.inj_pow, N2Nat.id. reflexivity.
Qed.

Lemma same_seed_spec (a b : list byte) : same_seed a b = true <-> a = b.
Proof.
  unfold same_seed. destruct (list_eq_dec Byte.byte_eq_dec a b);
    split; congruence.
Qed.

Lemma words_complete (A : Type) (univ : list A) (n : nat) (t : list A) :
  (forall x, In x univ) -> List.length t = n -> In t (words A univ n).
Proof.
  intros U. revert t. induction n as [|n IH]; intros [|x t] L;
    try discriminate L.
  - now left.
  - cbn [words]. apply in_flat_map. exists t. split.
    + apply IH. now inversion L.
    + apply (in_map (fun y => y :: t)). apply U.
Qed.

Lemma seeds_spec (s : list byte) : In s seeds <-> List.length s = 9.
Proof.
  split.
  - apply words_length.
  - apply words_complete. exact all_bytes_complete.
Qed.

Lemma seed_key_inj (s s' : list byte) :
  List.length s = 9 -> List.length s' = 9 ->
  seed_key s = seed_key s' -> s = s'.
Proof.
  intros L L'.
  do 10 (destruct s as [|? s]; try discriminate L).
  do 10 (destruct s' as [|? s']; try discriminate L').
  unfold seed_key. cbn [nth]. apply key_inj.
Qed.

Lemma generateMany_run (d : list (list byte)) (env : Env) :
  (forall s, In s d -> List.length s = 9) ->
  forall w,
    (forall i, i < 9 * List.length d ->
               entropy env (drawn w + i) = nth i (List.concat d) x00) ->
    generateMany (List.length d) env w
    = (Val (map seed_key d), advance (9 * List.length d) w).
Proof.
  induction d as [|s d IH]; intros L w H.
  - cbn. unfold ret, advance. destruct w; cbn. now rewrite Nat.add_0_r.
  - cbn [List.length generateMany map]. unfold bind at 1.
    rewrite generateLicenseKey_run. unfold bind at 1.
    rewrite (IH (fun s' Hs' => L s' (or_intror Hs')) (advance 9 w)).
    + unfold ret. f_equal.
      * f_equal. f_equal. unfold seed_key.
        assert (E : forall i, i < 9 ->
                      entropy env (drawn w + i) = nth i s x00).
        { intros i Hi. rewrite H by (cbn [List.length]; lia).
          cbn [List.concat]. apply app_nth1.
          rewrite (L s (or_introl eq_refl)). exact Hi. }
        rewrite <- (Nat.add_0_r (drawn w)) at 1.
        now rewrite !E by lia.
      * unfold advance. cbn [db trace drawn List.length]. f_equal. lia.
    + intros i Hi. unfold advance. cbn [drawn].
      rewrite <- Nat.add_assoc, H by (cbn [List.length]; lia).
      cbn [List.concat]. rewrite app_nth2 by (rewrite (L s (or_introl eq_refl)); lia).
      rewrite (L s (or_introl eq_refl)). f_equal. lia.
Qed.

Lemma keys_drawn_spec (d : list (list byte)) (env : Env) (w : World) :
  (forall s, In s d -> List.length s = 9) ->
  keys_drawn d env w = map seed_key d.
Proof.
  intros L. unfold keys_drawn. rewrite generateMany_run; trivial.
  intros i _. unfold feed. cbn [entropy]. f_equal. lia.
Qed.

(** Of the ways the random source can answer for [n] keys, those in which two
    of the keys are the same. *)
Lemma collisions_bound (env : Env) (w : World) (n : nat) :
  2 * List.length (filter (fun d => has_repeat jsstring JS.eqb (keys_drawn d env w))
                          (draws n))
  <= n * (n - 1) * List.length seeds ^ (n - 1).
Proof.
  rewrite (filter_ext_in _ (has_repeat (list byte) same_seed)).
  - apply repeats_bound; [exact same_seed_spec|].
    apply words_nodup. exact all_bytes_nodup.
  - intros d Hd.
    assert (L : forall s, In s d -> List.length s = 9).
    { intros s Hs. apply seeds_spec. revert s Hs. apply Forall_forall.
      revert d Hd. unfold draws. generalize n. clear n.
      induction n as [|n IH]; intros d; cbn [words].
      - intros [<- | []]. constructor.
      - rewrite in_flat_map. intros (t & Ht & Hd).
        apply in_map_iff in Hd. destruct Hd as (x & <- & Hx).
        constructor; [exact Hx | now apply IH]. }
    rewrite (keys_drawn_spec d env w L).
    apply has_repeat_map. intros x y Hx Hy.
    destruct (same_seed x y) eqn:E.
    + apply same_seed_spec in E. subst. apply eqb_refl.
    + destruct (JS.eqb (seed_key x) (seed_key y)) eqn:K; [|reflexivity].
      apply eqb_eq in K. apply seed_key_inj in K; auto.
      subst. rewrite (proj2 (same_seed_spec y y) eq_refl) in E. discriminate E.
Qed.

(** C7. [generateLicenseKey] always returns a key, of the form
    TLDR-XXXXXX-XXXXXX-XXXXXX with X in 0-9A-F (25 characters). The key
    determines the nine random bytes it was made from, so two draws give the
    same key only when all 72 random bits agree. Hence, of the [2^72 ^ n]
    equally likely answers of the random source for [n] keys in a row, at most
    [n (n - 1) / 2 * 2^72 ^ (n - 1)] contain the same key twice: the keys are
    all different except with probability at most [n (n - 1) / 2^73]. *)
Theorem generated_key_format_and_collisions
        (env env' : Env) (w w' : World) (n : nat) :
  (exists k, fst (generateLicenseKey env w) = Val k
             /\ is_license_key k = true
             /\ List.length k = 25)
  /\ (fst (generateLicenseKey env w) = fst (generateLicenseKey env' w') ->
      next_bytes env w = next_bytes env' w')
  /\ N.of_nat (List.length seeds) = (2 ^ 72)%N
  /\ List.length (draws n) = List.length seeds ^ n
  /\ 2 * List.length
           (filter (fun d => has_repeat jsstring JS.eqb (keys_drawn d env w))
                   (draws n))
     <= n * (n - 1) * List.length seeds ^ (n - 1).
Proof.
  split; [|split; [|split; [|split]]].
  - rewrite generateLicenseKey_run. cbn [fst].
    eexists. split; [reflexivity|]. apply key_shape.
  - rewrite !generateLicenseKey_run. cbn [fst].
    intros H. rewrite !next_bytes_eq. apply key_inj. congruence.
  - exact seeds_count.
  - apply words_count.
  - apply collisions_bound.
Qed.

Lemma generated_key_format_and_collisions_witness :
  next_bytes Sample.env0 Sample.world0 = next_bytes Sample.env0 Sample.world0.
Proof.
  apply (proj1 (proj2 (generated_key_format_and_collisions
                         Sample.env0 Sample.env0 Sample.world0 Sample.world0 0))).
  reflexivity.
Defined.

Example two_draws_same_bytes_same_key :
  let d := [[x0b; x30; x55; x7a; x9f; xc4; xe9; x0e; x33];
            [x0b; x30; x55; x7a; x9f; xc4; xe9; x0e; x33]] in
  keys_drawn d Sample.env0 Sample.world0
  = [lit "TLDR-0B3055-7A9FC4-E90E33"; lit "TLDR-0B3055-7A9FC4-E90E33"]
  /\ has_repeat jsstring JS.eqb (keys_drawn d Sample.env0 Sample.world0) = true.
Proof. split; reflexivity. Qed.

(** ** The routes and the tables over many requests *)

Import App.

Lemma getSupabase_missing (env : Env) (w : World) :
  SUPABASE_URL env = false -> getSupabase env w = (Throw ConfigError, w).
Proof. unfold getSupabase, bind, ask, throw. now intros ->. Qed.

Lemma relay_summary_lazy (k txt : jsstring) (t : option jsstring)
      (env : Env) (w : World) :
  SUPABASE_URL env = true ->
  relay_summary getSupabase k txt t env w
  = relay_summary ServerJs.supabase k txt t env w.
Proof.
  intros U. unfold relay_summary, fetch, getSupabase, ServerJs.supabase.
  unfold bind, ask, emit, ret, throw, json. cbv beta iota.
  destruct (relay env) as [|[[m|]|[content|]]]; try reflexivity.
  now rewrite U.
Qed.

Lemma verifyLicense_with (sup : M unit) (k : jsstring) (env : Env) (w : World) :
  sup env w = (Val tt, w) ->
  verifyLicense sup k env w = verifyLicense ServerJs.supabase k env w.
Proof.
  intros S. unfold verifyLicense. unfold bind at 1 3. rewrite S. reflexivity.
Qed.

Lemma summarise_guarded_run (sup : M unit) (b : SummariseBody)
      (next : jsstring -> jsstring -> M Response) (env : Env) (w : World) :
  sup env w = (Val tt, w) ->
  summarise_guarded sup b next env w
  = match truthy (licenseKey b), truthy (text b) with
    | Some k, Some txt =>
        match fst (verifyLicense ServerJs.supabase k env w) with
        | Val (Some _) => next k txt env (log (ESelectLicense k) w)
        | _ => (Val invalid_license, log (ESelectLicense k) w)
        end
    | _, _ => (Val missing_input, w)
    end.
Proof.
  intros S. unfold summarise_guarded.
  destruct (truthy (licenseKey b)) as [k|]; [|reflexivity].
  destruct (truthy (text b)) as [txt|]; [|reflexivity].
  unfold bind at 1. rewrite (verifyLicense_with sup k env w S), verifyLicense_run.
  cbn [fst]. destruct (if select_fails env then None else _); reflexivity.
Qed.

Lemma summarise_lazy (b : SummariseBody) (env : Env) (w : World) :
  SUPABASE_URL env = true ->
  Mailing.summarise b env w = ServerJs.summarise b env w
  /\ Guarded.summarise b env w = ServerJs.summarise b env w.
Proof.
  intros U. pose proof (getSupabase_run env w U) as G.
  rewrite summarise_run. split.
  - unfold Mailing.summarise. rewrite (summarise_guarded_run _ _ _ _ _ G).
    destruct (truthy (licenseKey b)) as [k|]; [|reflexivity].
    destruct (truthy (text b)) as [txt|]; [|reflexivity].
    destruct (fst (verifyLicense ServerJs.supabase k env w)) as [[row|]|e];
      try reflexivity.
    unfold try_catch. now rewrite (relay_summary_lazy _ _ _ _ _ U).
  - unfold Guarded.summarise. unfold try_catch at 1.
    rewrite (summarise_guarded_run _ _ _ _ _ G).
    destruct (truthy (licenseKey b)) as [k|]; [|reflexivity].
    destruct (truthy (text b)) as [txt|]; [|reflexivity].
    destruct (fst (verifyLicense ServerJs.supabase k env w)) as [[row|]|e];
      try reflexivity.
    unfold try_catch. rewrite (relay_summary_lazy _ _ _ _ _ U).
    destruct (relay_summary ServerJs.supabase k txt (title b) env _)
      as [[r|e] w']; reflexivity.
Qed.

Lemma verify_lazy (k : option jsstring) (env : Env) (w : World) :
  SUPABASE_URL env = true ->
  Mailing.verify k env w = ServerJs.verify k env w
  /\ Guarded.verify k env w = ServerJs.verify k env w.
Proof.
  intros U. unfold Mailing.verify, Guarded.verify, ServerJs.verify, verify_body.
  destruct (truthy k) as [k'|]; [|split; reflexivity].
  unfold try_catch, bind.
  rewrite (verifyLicense_lazy k' env w U), verifyLicense_run.
  split; reflexivity.
Qed.

(** A completed checkout, for any way of reaching the store client that
    succeeds and any continuation after the insert. *)
Lemma webhook_body_run (sup : M unit)
      (delivered : jsstring -> option jsstring -> M unit)
      (ev : StripeEvent) (env : Env) (w : World) :
  type ev = checkout_completed ->
  (forall w', sup env w' = (Val tt, w')) ->
  webhook_body sup (Verified ev) delivered env w
  = let row := issued_license env w ev in
    let w1 := log (EInsertLicense row) (advance 9 w) in
    if insert_license_fails env || key_taken (key row) w
    then (Val failed_to_create, w1)
    else match delivered (key row) (email row) env (store_license row w1) with
         | (Val _, w2) => (Val received, w2)
         | (Throw e, w2) => (Throw e, w2)
         end.
Proof.
  intros T S. unfold webhook_body.
  rewrite T, eqb_refl. unfold bind at 1. rewrite next_key_advance.
  unfold bind at 1, ask at 1. unfold bind at 1. rewrite S.
  unfold bind at 1. rewrite insert_license_run. cbv zeta.
  unfold issued_license. cbn [key email].
  change (key_taken (next_key env w) (advance 9 w))
    with (key_taken (next_key env w) w).
  destruct (insert_license_fails env); [reflexivity|].
  destruct (key_taken (next_key env w) w); [reflexivity|].
  cbn [error orb]. unfold bind at 1.
  destruct (delivered _ _ _ _) as [[u|e] w2]; reflexivity.
Qed.

Lemma webhook_body_unconfigured (sup : M unit)
      (delivered : jsstring -> option jsstring -> M unit)
      (ev : StripeEvent) (env : Env) (w : World) (e : exn) :
  type ev = checkout_completed ->
  (forall w', sup env w' = (Throw e, w')) ->
  webhook_body sup (Verified ev) delivered env w = (Throw e, advance 9 w).
Proof.
  intros T S. unfold webhook_body.
  rewrite T, eqb_refl. unfold bind at 1. rewrite next_key_advance.
  unfold bind at 1, ask at 1. unfold bind at 1. now rewrite S.
Qed.

Lemma webhook_body_other (sup : M unit)
      (delivered : jsstring -> option jsstring -> M unit)
      (c : constructed) (env : Env) (w : World) :
  match c with
  | SignatureError _ => True
  | Verified ev => type ev <> checkout_completed
  end ->
  webhook_body sup c delivered env w
  = (Val match c with
         | SignatureError m => answer 400 (BText (lit "Webhook Error: " ++ m))
         | Verified _ => received
         end, w).
Proof.
  destruct c as [m|ev]; intros H; [reflexivity|]. unfold webhook_body.
  destruct (JS.eqb (type ev) checkout_completed) eqn:E; [|reflexivity].
  apply eqb_eq in E. contradiction.
Qed.

Lemma webhook_lazy (c : constructed) (env : Env) (w : World) :
  SUPABASE_URL env = true ->
  Guarded.webhook c env w = ServerJs.webhook c env w.
Proof.
  intros U. unfold Guarded.webhook, ServerJs.webhook, try_catch.
  destruct c as [m|ev]; [reflexivity|].
  destruct (JS.eqb (type ev) checkout_completed) eqn:T.
  - apply eqb_eq in T.
    rewrite !webhook_body_run; trivial;
      [|intros w'; now apply getSupabase_run].
    cbv zeta. destruct (_ || _); reflexivity.
  - unfold webhook_body. rewrite T. reflexivity.
Qed.

(** *** Handlers without the store settings *)

Lemma verifyLicense_unconfigured (k : jsstring) (env : Env) (w : World) :
  SUPABASE_URL env = false ->
  verifyLicense getSupabase k env w = (Throw ConfigError, w).
Proof.
  intros U. unfold verifyLicense. unfold bind at 1.
  now rewrite (getSupabase_missing env w U).
Qed.

Lemma summarise_guarded_unconfigured (b : SummariseBody)
      (next : jsstring -> jsstring -> M Response) (env : Env) (w : World) :
  SUPABASE_URL env = false ->
  summarise_guarded getSupabase b next env w
  = match truthy (licenseKey b), truthy (text b) with
    | Some _, Some _ => (Throw ConfigError, w)
    | _, _ => (Val missing_input, w)
    end.
Proof.
  intros U. unfold summarise_guarded.
  destruct (truthy (licenseKey b)) as [k|]; [|reflexivity].
  destruct (truthy (text b)) as [txt|]; [|reflexivity].
  unfold bind. now rewrite (verifyLicense_unconfigured k env w U).
Qed.

Lemma verify_body_unconfigured (k : option jsstring) (env : Env) (w : World) :
  SUPABASE_URL env = false ->
  verify_body getSupabase k env w
  = match truthy k with
    | Some _ => (Throw ConfigError, w)
    | None => (Val (answer 400 (BValid false)), w)
    end.
Proof.
  intros U. unfold verify_body. destruct (truthy k) as [k'|]; [|reflexivity].
  unfold bind. now rewrite (verifyLicense_unconfigured k' env w U).
Qed.

(** *** What one request does to the tables *)

Lemma record_usage_step (env : Env) (u : Usage) (w : World) :
  db_step (db w) (db (record_usage env u w)).
Proof.
  unfold record_usage. cbn [db]. destruct (insert_usage_fails env).
  - apply StepNone.
  - apply StepUsage.
Qed.

Lemma summarise_original_step (b : SummariseBody) (env : Env) (w : World) :
  db_step (db w) (db (snd (ServerJs.summarise b env w))).
Proof.
  rewrite summarise_run.
  destruct (truthy (licenseKey b)) as [k|]; [|apply StepNone].
  destruct (truthy (text b)) as [txt|]; [|apply StepNone].
  destruct (fst (verifyLicense ServerJs.supabase k env w)) as [[row|]|e];
    try apply StepNone.
  rewrite relay_summary_run. cbv zeta.
  destruct (relay env) as [|[[m|]|[content|]]]; try apply StepNone.
  destruct (JSON.parse _); cbn [snd];
    apply (record_usage_step env (usage_row env k)
             (log (ERelay (forwarded env (title b) txt))
                  (log (ESelectLicense k) w))).
Qed.

Lemma verify_original_step (k : option jsstring) (env : Env) (w : World) :
  db (snd (ServerJs.verify k env w)) = db w.
Proof.
  unfold ServerJs.verify, verify_body. destruct (truthy k) as [k'|];
    [|reflexivity].
  unfold bind. rewrite verifyLicense_run. reflexivity.
Qed.

Lemma store_license_step (row : License) (w w1 : World) :
  db w1 = db w -> active row = true -> key_taken (key row) w = false ->
  db_step (db w) (db (store_license row w1)).
Proof.
  intros E A K. unfold store_license. cbn [db]. rewrite E.
  now apply StepLicense.
Qed.

Lemma webhook_original_step (c : constructed) (env : Env) (w : World) :
  db_step (db w) (db (snd (ServerJs.webhook c env w))).
Proof.
  destruct c as [m|ev]; [apply StepNone|].
  destruct (JS.eqb (type ev) checkout_completed) eqn:T.
  - apply eqb_eq in T. rewrite (webhook_run ev env w T). cbv zeta.
    destruct (insert_license_fails env); [apply StepNone|]. cbn [orb].
    destruct (key_taken _ w) eqn:K; [apply StepNone|].
    now apply store_license_step.
  - unfold ServerJs.webhook, webhook_body. rewrite T. apply StepNone.
Qed.

Lemma webhook_mailing_step (c : constructed) (env : Env) (w : World) :
  db_step (db w) (db (snd (Mailing.webhook c env w))).
Proof.
  destruct c as [m|ev]; [apply StepNone|].
  destruct (JS.eqb (type ev) checkout_completed) eqn:T.
  - apply eqb_eq in T. destruct (SUPABASE_URL env) eqn:U.
    + rewrite (mailing_webhook_run ev env w T U). cbv zeta.
      destruct (insert_license_fails env); [apply StepNone|]. cbn [orb].
      destruct (key_taken _ w) eqn:K; [apply StepNone|]. cbn [snd].
      unfold mailed. destruct (mailer env); now apply store_license_step.
    + unfold Mailing.webhook.
      rewrite (webhook_body_unconfigured getSupabase _ ev env w ConfigError T)
        by (intros w'; now apply getSupabase_missing).
      apply StepNone.
  - unfold Mailing.webhook, webhook_body. rewrite T. apply StepNone.
Qed.

Lemma handle_db_step (rev : revision) (q : request) (env : Env) (w : World) :
  db_step (db w) (db (snd (handle rev q env w))).
Proof.
  destruct (SUPABASE_URL env) eqn:U.
  - destruct rev, q; cbn [handle];
      try rewrite (proj1 (summarise_lazy _ env w U));
      try rewrite (proj2 (summarise_lazy _ env w U));
      try rewrite (proj1 (verify_lazy _ env w U));
      try rewrite (proj2 (verify_lazy _ env w U));
      try rewrite (webhook_lazy _ env w U);
      try apply summarise_original_step;
      try apply webhook_original_step;
      try apply webhook_mailing_step;
      rewrite verify_original_step; apply StepNone.
  - destruct rev, q; cbn [handle];
      try apply summarise_original_step;
      try apply webhook_original_step;
      try apply webhook_mailing_step;
      try (rewrite verify_original_step; apply StepNone).
    + unfold Guarded.summarise, try_catch.
      rewrite (summarise_guarded_unconfigured _ _ env w U).
      destruct (truthy (licenseKey b)); [|apply StepNone].
      destruct (truthy (text b)); apply StepNone.
    + unfold Guarded.verify, try_catch.
      rewrite (verify_body_unconfigured _ env w U).
      destruct (truthy k); apply StepNone.
    + unfold Guarded.webhook, try_catch. destruct c as [m|ev]; [apply StepNone|].
      destruct (JS.eqb (type ev) checkout_completed) eqn:T.
      * apply eqb_eq in T.
        rewrite (webhook_body_unconfigured getSupabase _ ev env w ConfigError T)
          by (intros w'; now apply getSupabase_missing).
        apply StepNone.
      * unfold webhook_body. rewrite T. apply StepNone.
    + unfold Mailing.summarise.
      rewrite (summarise_guarded_unconfigured _ _ env w U).
      destruct (truthy (licenseKey b)); [|apply StepNone].
      destruct (truthy (text b)); apply StepNone.
    + unfold Mailing.verify. rewrite (verify_body_unconfigured _ env w U).
      destruct (truthy k); apply StepNone.
Qed.

(** *** Invariants of the tables *)

Lemma key_taken_in (k : jsstring) (ls : list License) :
  existsb (fun l => JS.eqb (key l) k) ls = false <-> ~ In k (map key ls).
Proof.
  induction ls as [|l ls IH]; cbn; [tauto|].
  rewrite orb_false_iff, IH. split.
  - intros [E H] [K | K]; [|tauto]. rewrite K, eqb_refl in E. discriminate E.
  - intros H. split; [|tauto].
    destruct (JS.eqb (key l) k) eqn:E; [|reflexivity].
    apply eqb_eq in E. tauto.
Qed.

Lemma db_step_unique (t t' : Tables) :
  db_step t t' ->
  NoDup (map key (licenses t)) -> NoDup (map key (licenses t')).
Proof.
  intros [|row A K|u] N; cbn [licenses]; trivial.
  rewrite map_app. cbn. apply NoDup_app; trivial.
  - constructor; [intros [] | constructor].
  - intros k Hk [<- | []]. now apply key_taken_in in K.
Qed.

Lemma db_step_appends (t t' : Tables) :
  db_step t t' ->
  exists rows uses,
    licenses t' = licenses t ++ rows
    /\ usage t' = usage t ++ uses
    /\ Forall (fun l => active l = true) rows.
Proof.
  intros [|row A K|u]; cbn [licenses usage].
  - exists [], []. now rewrite !app_nil_r.
  - exists [row], []. rewrite app_nil_r. repeat split. now constructor.
  - exists [], [u]. rewrite app_nil_r. repeat split. constructor.
Qed.

Lemma serve_unique (rev : revision) (qs : list (Env * request)) (w : World) :
  unique_keys w -> unique_keys (serve rev qs w).
Proof.
  revert w. induction qs as [|[env q] qs IH]; intros w U; [exact U|].
  cbn [serve]. apply IH. unfold unique_keys in *.
  exact (db_step_unique _ _ (handle_db_step rev q env w) U).
Qed.

Lemma serve_appends (rev : revision) (qs : list (Env * request)) (w : World) :
  exists rows uses,
    licenses (db (serve rev qs w)) = licenses (db w) ++ rows
    /\ usage (db (serve rev qs w)) = usage (db w) ++ uses
    /\ Forall (fun l => active l = true) rows.
Proof.
  revert w. induction qs as [|[env q] qs IH]; intros w.
  - exists [], []. now rewrite !app_nil_r.
  - cbn [serve].
    destruct (IH (snd (handle rev q env w))) as (rows & uses & L & U & A).
    destruct (db_step_appends _ _ (handle_db_step rev q env w))
      as (rows0 & uses0 & L0 & U0 & A0).
    exists (rows0 ++ rows), (uses0 ++ uses).
    rewrite L, U, L0, U0, !app_assoc. repeat split.
    apply Forall_app. now split.
Qed.

(** With unique keys, the active rows of a key are the row that has it. *)
Lemma active_rows_unique (ls : list License) (row : License) :
  NoDup (map key ls) -> In row ls -> active row = true ->
  filter (fun l => JS.eqb (key l) (key row) && Bool.eqb (active l) true) ls
  = [row].
Proof.
  induction ls as [|l ls IH]; intros N I A; [destruct I|].
  cbn [map] in N. apply NoDup_cons_iff in N. destruct N as [Nl N].
  cbn [filter]. destruct I as [-> | I].
  - rewrite eqb_refl, A. cbn. f_equal.
    clear IH N A. induction ls as [|l ls IH]; [reflexivity|]. cbn.
    destruct (JS.eqb (key l) (key row)) eqn:E.
    + apply eqb_eq in E. exfalso. apply Nl. left. exact E.
    + cbn. apply IH. intros H. apply Nl. now right.
  - destruct (JS.eqb (key l) (key row)) eqn:E.
    + apply eqb_eq in E. exfalso. apply Nl. rewrite E. now apply in_map.
    + cbn. now apply IH.
Qed.

Lemma active_rows_in (k : jsstring) (w : World) (row : License) :
  In row (active_rows k w) ->
  In row (licenses (db w)) /\ key row = k /\ active row = true.
Proof.
  unfold active_rows. intros H. apply filter_In in H. destruct H as [I H].
  apply andb_true_iff in H. destruct H as [K A].
  apply eqb_eq in K. split; [exact I|]. split; [exact K|].
  now destruct (active row).
Qed.

(** *** The routes, revision by revision *)

Lemma handle_summarise (rev : revision) (b : SummariseBody)
      (env : Env) (w : World) :
  configured rev env ->
  handle rev (Summarise b) env w = ServerJs.summarise b env w.
Proof.
  intros [-> | U]; [reflexivity|]. destruct rev; cbn [handle];
    [reflexivity | apply (summarise_lazy b env w U)
                 | apply (summarise_lazy b env w U)].
Qed.

Lemma handle_verify (rev : revision) (k : option jsstring)
      (env : Env) (w : World) :
  configured rev env ->
  handle rev (Verify k) env w = ServerJs.verify k env w.
Proof.
  intros [-> | U]; [reflexivity|]. destruct rev; cbn [handle];
    [reflexivity | apply (verify_lazy k env w U)
                 | apply (verify_lazy k env w U)].
Qed.

Lemma handle_checkout (rev : revision) (ev : StripeEvent)
      (env : Env) (w : World) :
  configured rev env -> type ev = checkout_completed ->
  handle rev (Webhook (Verified ev)) env w
  = let row := issued_license env w ev in
    let w1 := log (EInsertLicense row) (advance 9 w) in
    if insert_license_fails env || key_taken (key row) w
    then (Val failed_to_create, w1)
    else (Val received,
          match rev with
          | WithMail => mailed env row (store_license row w1)
          | _ => store_license row w1
          end).
Proof.
  intros C T. destruct rev; cbn [handle].
  - apply (webhook_run ev env w T).
  - destruct C as [C | U]; [discriminate C|].
    rewrite (webhook_lazy _ env w U). apply (webhook_run ev env w T).
  - destruct C as [C | U]; [discriminate C|].
    apply (mailing_webhook_run ev env w T U).
Qed.

Lemma webhook_bad_signature_is_rejected_aux
      (rev : revision) (m : jsstring) (env : Env) (w : World) :
  handle rev (Webhook (SignatureError m)) env w
  = (Val (answer 400 (BText (lit "Webhook Error: " ++ m))), w).
Proof. destruct rev; reflexivity. Qed.

Lemma webhook_other_event_aux
      (rev : revision) (ev : StripeEvent) (env : Env) (w : World) :
  type ev <> checkout_completed ->
  handle rev (Webhook (Verified ev)) env w = (Val received, w).
Proof.
  intros T.
  assert (E : JS.eqb (type ev) checkout_completed = false).
  { destruct (JS.eqb _ _) eqn:E; [|reflexivity]. apply eqb_eq in E. tauto. }
  destruct rev; cbn [handle];
    unfold ServerJs.webhook, Guarded.webhook, Mailing.webhook, try_catch,
      webhook_body; rewrite E; reflexivity.
Qed.

(** X1. A webhook request whose signature does not verify is answered
    400 "Webhook Error: <message>" by every revision, and nothing else
    happens: no key is drawn, no row inserted, no mail sent. *)
Theorem webhook_bad_signature_is_rejected
        (rev : revision) (m : jsstring) (env : Env) (w : World) :
  handle rev (Webhook (SignatureError m)) env w
  = (Val (answer 400 (BText (lit "Webhook Error: " ++ m))), w).
Proof. apply webhook_bad_signature_is_rejected_aux. Qed.

(** X2. A verified event of any type other than checkout.session.completed
    is acknowledged with [{ received: true }] by every revision and has no
    effect at all. *)
Theorem webhook_other_event_is_acknowledged
        (rev : revision) (ev : StripeEvent) (env : Env) (w : World) :
  type ev <> checkout_completed ->
  handle rev (Webhook (Verified ev)) env w = (Val received, w).
Proof. apply webhook_other_event_aux. Qed.

Lemma webhook_other_event_is_acknowledged_witness :
  handle WithMail
    (Webhook (Verified {| type := lit "invoice.paid";
                          object := object Sample.checkout |}))
    Sample.env0 Sample.world1
  = (Val received, Sample.world1).
Proof.
  apply webhook_other_event_is_acknowledged. discriminate.
Defined.

(** X3. When the insert of the License fails, because the store refuses it
    or because the key is already in the table (UNIQUE), /webhook answers
    500 "Failed to create license"; the tables are as before and, in the
    revision that mails, no mail is sent. *)
Theorem webhook_failed_insert_is_reported
        (rev : revision) (ev : StripeEvent) (env : Env) (w : World) :
  configured rev env ->
  type ev = checkout_completed ->
  insert_license_fails env = true \/ key_taken (next_key env w) w = true ->
  handle rev (Webhook (Verified ev)) env w
  = (Val failed_to_create,
     log (EInsertLicense (issued_license env w ev)) (advance 9 w))
  /\ db (snd (handle rev (Webhook (Verified ev)) env w)) = db w.
Proof.
  intros C T F. rewrite (handle_checkout rev ev env w C T). cbv zeta.
  change (key (issued_license env w ev)) with (next_key env w).
  assert (E : insert_license_fails env || key_taken (next_key env w) w = true).
  { destruct F as [-> | ->]; [reflexivity | apply orb_true_r]. }
  rewrite E. split; reflexivity.
Qed.

Lemma webhook_failed_insert_is_reported_witness :
  fst (handle WithMail (Webhook (Verified Sample.checkout)) Sample.env0
         Scenario.world_taken)
  = Val failed_to_create.
Proof.
  refine (f_equal fst (proj1 (webhook_failed_insert_is_reported WithMail
            Sample.checkout Sample.env0 Scenario.world_taken
            (or_intror eq_refl) eq_refl (or_intror eq_refl)))).
Defined.

Lemma handle_checkout_unconfigured (rev : revision) (ev : StripeEvent)
      (env : Env) (w : World) :
  rev <> Original -> SUPABASE_URL env = false ->
  type ev = checkout_completed ->
  handle rev (Webhook (Verified ev)) env w
  = (match rev with
     | WithMail => Throw ConfigError
     | _ => Val internal_server_error
     end, advance 9 w).
Proof.
  intros R U T. destruct rev; [congruence| |]; cbn [handle];
    unfold Guarded.webhook, Mailing.webhook, try_catch;
    rewrite (webhook_body_unconfigured getSupabase _ ev env w ConfigError T)
      by (intros w'; now apply getSupabase_missing);
    reflexivity.
Qed.

Lemma added_same (w : World) : added w w = [].
Proof. unfold added. apply skipn_all. Qed.

Lemma added_advance (n : nat) (w : World) : added w (advance n w) = [].
Proof. unfold added, advance. cbn [trace]. apply skipn_all. Qed.

(** X4. A key is mailed only by the revision that mails, only for a
    completed checkout whose License row has just been stored, to the address
    of that checkout and once: the insert and then the mail are all the
    request does. *)
Theorem key_is_mailed_only_once_stored
        (rev : revision) (c : constructed) (env : Env) (w : World)
        (to : option jsstring) (k : jsstring) :
  In (EMail to k) (added w (snd (handle rev (Webhook c) env w))) ->
  rev = WithMail
  /\ exists ev,
       c = Verified ev
       /\ to = customer_email (object ev)
       /\ k = next_key env w
       /\ key_taken k w = false
       /\ In (issued_license env w ev)
             (licenses (db (snd (handle rev (Webhook c) env w))))
       /\ added w (snd (handle rev (Webhook c) env w))
          = [EInsertLicense (issued_license env w ev); EMail to k].
Proof.
  destruct c as [m|ev].
  - rewrite webhook_bad_signature_is_rejected_aux. cbn [snd].
    rewrite added_same. intros [].
  - destruct (JS.eqb (type ev) checkout_completed) eqn:T.
    + apply eqb_eq in T.
      assert (C : configured rev env \/ (rev <> Original /\ SUPABASE_URL env = false)).
      { unfold configured. destruct rev; try (left; left; reflexivity);
          destruct (SUPABASE_URL env); try (left; right; reflexivity);
          right; split; try reflexivity; discriminate. }
      destruct C as [C | [R U]].
      * rewrite (handle_checkout rev ev env w C T). cbv zeta.
        change (key (issued_license env w ev)) with (next_key env w).
        destruct (insert_license_fails env); cbn [orb snd];
          [rewrite added_app with (evs := [EInsertLicense (issued_license env w ev)]);
             [intros [H | []]; discriminate H | reflexivity]|].
        destruct (key_taken (next_key env w) w) eqn:K; cbn [snd];
          [rewrite added_app with (evs := [EInsertLicense (issued_license env w ev)]);
             [intros [H | []]; discriminate H | reflexivity]|].
        destruct rev;
          try (rewrite added_app with (evs := [EInsertLicense (issued_license env w ev)]);
               [intros [H | []]; discriminate H | reflexivity]).
        unfold mailed. destruct (mailer env);
          try (rewrite added_app with (evs := [EInsertLicense (issued_license env w ev)]);
               [intros [H | []]; discriminate H | reflexivity]);
          (rewrite added_app
             with (evs := [EInsertLicense (issued_license env w ev);
                           EMail (customer_email (object ev)) (next_key env w)]);
           [|cbn; now rewrite <- app_assoc]);
          (intros [H | [H | []]]; [discriminate H|]; inversion H; subst;
           split; [reflexivity|]; exists ev; repeat split; trivial;
           cbn; apply in_or_app; right; now left).
      * rewrite (handle_checkout_unconfigured rev ev env w R U T). cbn [snd].
        rewrite added_advance. intros [].
    + rewrite webhook_other_event_aux
        by (intros E; rewrite E, eqb_refl in T; discriminate T).
      cbn [snd]. rewrite added_same. intros [].
Qed.

Lemma key_is_mailed_only_once_stored_witness :
  added Sample.world1
    (snd (handle WithMail (Webhook (Verified Sample.checkout))
            Sample.env0 Sample.world1))
  = [EInsertLicense (issued_license Sample.env0 Sample.world1 Sample.checkout);
     EMail (Some (lit "carol@example.org")) (lit "TLDR-0B3055-7A9FC4-E90E33")].
Proof.
  destruct (key_is_mailed_only_once_stored WithMail (Verified Sample.checkout)
              Sample.env0 Sample.world1
              (Some (lit "carol@example.org")) (lit "TLDR-0B3055-7A9FC4-E90E33"))
    as (_ & ev & E & _ & _ & _ & _ & A).
  - right; left. reflexivity.
  - inversion E; subst. exact A.
Defined.

Lemma next_key_truthy (env : Env) (w : World) :
  truthy (Some (next_key env w)) = Some (next_key env w).
Proof.
  unfold next_key. rewrite generateLicenseKey_run. reflexivity.
Qed.

Lemma verify_run (k : jsstring) (env : Env) (w : World) :
  k <> [] ->
  ServerJs.verify (Some k) env w
  = (Val (answer 200
            (BValid (if select_fails env then false
                     else match active_rows k w with
                          | [_] => true
                          | _ => false
                          end))),
     log (ESelectLicense k) w).
Proof.
  intros K. unfold ServerJs.verify, verify_body.
  destruct k as [|c k]; [congruence|]. cbn [truthy].
  unfold bind. rewrite verifyLicense_run. unfold json, ret.
  destruct (select_fails env); [reflexivity|].
  destruct (active_rows (c :: k) w) as [|r [|r' l]]; reflexivity.
Qed.

Lemma next_key_nonempty (env : Env) (w : World) : next_key env w <> [].
Proof.
  unfold next_key. rewrite generateLicenseKey_run. discriminate.
Qed.

(** X5. Purchase, then check: once /webhook has answered [{ received: true }]
    to a completed checkout, /verify with the key it issued answers
    [{ valid: true }] (whenever the lookup itself works), in every
    revision. *)
Theorem issued_key_verifies
        (rev : revision) (ev : StripeEvent) (env env' : Env) (w : World) :
  configured rev env -> configured rev env' ->
  type ev = checkout_completed ->
  select_fails env' = false ->
  fst (handle rev (Webhook (Verified ev)) env w) = Val received ->
  fst (handle rev (Verify (Some (next_key env w))) env'
         (snd (handle rev (Webhook (Verified ev)) env w)))
  = Val (answer 200 (BValid true)).
Proof.
  intros C C' T S. rewrite (handle_checkout rev ev env w C T). cbv zeta.
  change (key (issued_license env w ev)) with (next_key env w).
  destruct (insert_license_fails env); cbn [orb fst snd];
    [intros H; discriminate H|].
  destruct (key_taken (next_key env w) w) eqn:K; cbn [fst snd];
    [intros H; discriminate H | intros _].
  rewrite (handle_verify rev _ env' _ C').
  rewrite (verify_run _ env' _ (next_key_nonempty env w)), S. cbn [fst].
  assert (A : forall w', db w' = db (store_license (issued_license env w ev) w) ->
                active_rows (next_key env w) w' = [issued_license env w ev]).
  { intros w' E. unfold active_rows. rewrite E.
    apply (active_rows_store (issued_license env w ev) w K eq_refl). }
  rewrite A; [reflexivity|].
  destruct rev; try reflexivity. unfold mailed. now destruct (mailer env).
Qed.

Lemma issued_key_verifies_witness :
  fst (handle Original (Verify (Some (next_key Sample.env0 Sample.world1)))
         Sample.env0
         (snd (handle Original (Webhook (Verified Sample.checkout))
                 Sample.env0 Sample.world1)))
  = Val (answer 200 (BValid true)).
Proof.
  apply issued_key_verifies; try reflexivity; left; reflexivity.
Defined.

(** X6. With unique keys and a working lookup, /verify answers
    [{ valid: true }] exactly for the keys of active License rows, and
    [{ valid: false }] for every other non-empty key. *)
Theorem verify_is_valid_iff_active_row
        (rev : revision) (k : jsstring) (env : Env) (w : World) :
  configured rev env -> unique_keys w -> select_fails env = false -> k <> [] ->
  exists v,
    fst (handle rev (Verify (Some k)) env w) = Val (answer 200 (BValid v))
    /\ (v = true <->
        exists row, In row (licenses (db w)) /\ key row = k /\ active row = true).
Proof.
  intros C U S K. rewrite (handle_verify rev _ env w C), (verify_run k env w K), S.
  cbn [fst]. eexists. split; [reflexivity|].
  destruct (active_rows k w) as [|r [|r' l]] eqn:A.
  - split; [discriminate|]. intros (row & I & <- & Act). exfalso.
    unfold active_rows in A.
    rewrite (active_rows_unique _ row U I Act) in A. discriminate A.
  - split; [intros _ | reflexivity]. exists r. apply (active_rows_in k w r).
    rewrite A. now left.
  - split; [discriminate|]. intros (row & I & <- & Act). exfalso.
    unfold active_rows in A.
    rewrite (active_rows_unique _ row U I Act) in A. discriminate A.
Qed.

Lemma verify_is_valid_iff_active_row_witness :
  exists v,
    fst (handle WithGuards (Verify (Some (key Sample.alice)))
           Sample.env0 Sample.world1)
    = Val (answer 200 (BValid v))
    /\ (v = true <->
        exists row, In row (licenses (db Sample.world1))
                    /\ key row = key Sample.alice /\ active row = true).
Proof.
  apply verify_is_valid_iff_active_row.
  - right. reflexivity.
  - unfold unique_keys. cbn. repeat constructor; cbn; intuition discriminate.
  - reflexivity.
  - discriminate.
Defined.



(** X8. The tables only grow: after any sequence of requests the rows that
    were in [licenses] and [usage] are still there, unchanged and in place,
    followed by the new ones; every new License row is active. No request
    deletes, rewrites or deactivates a License. *)
Theorem requests_only_append
        (rev : revision) (qs : list (Env * request)) (w : World) :
  exists rows uses,
    licenses (db (serve rev qs w)) = licenses (db w) ++ rows
    /\ usage (db (serve rev qs w)) = usage (db w) ++ uses
    /\ Forall (fun l => active l = true) rows.
Proof. apply serve_appends. Qed.

(** X9. A license stays valid: with unique keys, if a key verifies, it still
    verifies, to the same row, after any sequence of requests to any
    revision. *)
Theorem verified_key_stays_verified
        (rev : revision) (qs : list (Env * request)) (w : World)
        (k : jsstring) (row : License) (env env' : Env) :
  unique_keys w ->
  fst (verifyLicense ServerJs.supabase k env w) = Val (Some row) ->
  select_fails env' = false ->
  fst (verifyLicense ServerJs.supabase k env' (serve rev qs w))
  = Val (Some row).
Proof.
  intros U V S. rewrite verifyLicense_run in *. cbn [fst] in *. rewrite S.
  destruct (select_fails env); [discriminate V|].
  destruct (active_rows k w) as [|r [|r' l]] eqn:A; try discriminate V.
  inversion V; subst r.
  destruct (active_rows_in k w row) as (I & <- & Act); [rewrite A; now left|].
  destruct (serve_appends rev qs w) as (rows & uses & L & _ & _).
  unfold active_rows.
  rewrite (active_rows_unique _ row (serve_unique rev qs w U)); trivial.
  rewrite L. apply in_or_app. now left.
Qed.

Lemma verified_key_stays_verified_witness :
  fst (verifyLicense ServerJs.supabase (key Sample.alice) Sample.env0
         (serve Original
            [(Sample.env0, Webhook (Verified Sample.checkout));
             (Sample.env_talk, Summarise (Sample.request (lit "page")))]
            Sample.world1))
  = Val (Some Sample.alice).
Proof.
  apply verified_key_stays_verified with (env := Sample.env0);
    try reflexivity.
  unfold unique_keys. cbn. repeat constructor; cbn; intuition discriminate.
Defined.

(** What /summarise does once the key has verified. *)
Lemma summarise_verified (rev : revision) (b : SummariseBody)
      (env : Env) (w : World) (k txt : jsstring) (row : License) :
  configured rev env ->
  truthy (licenseKey b) = Some k -> truthy (text b) = Some txt ->
  fst (verifyLicense ServerJs.supabase k env w) = Val (Some row) ->
  handle rev (Summarise b) env w
  = let w1 := log (ERelay (forwarded env (title b) txt))
                  (log (ESelectLicense k) w) in
    match relay env with
    | FetchFails => (Val internal_server_error, w1)
    | Fetched (NotOk None) => (Val internal_server_error, w1)
    | Fetched (NotOk (Some m)) =>
        (Val (answer 502 (BError match truthy m with
                                 | Some msg => msg
                                 | None => lit "AI API error"
                                 end)), w1)
    | Fetched (Ok None) => (Val internal_server_error, w1)
    | Fetched (Ok (Some content)) =>
        let w2 := record_usage env (usage_row env k) w1 in
        match JSON.parse (Fence.strip_fences content) with
        | Some result => (Val (answer 200 (BResult result)), w2)
        | None => (Val internal_server_error, w2)
        end
    end.
Proof.
  intros C Hk Ht Hv.
  rewrite (handle_summarise rev b env w C), summarise_run, Hk, Ht, Hv.
  apply relay_summary_run.
Qed.



(** X11. The usage row is written as soon as the completion API has answered
    with content, before that content is parsed: with a working insert the
    table gets exactly one new row, carrying the license key of the request,
    both when the content parses (answer 200 with the parsed value) and when
    it does not (answer 500). *)
Theorem usage_is_recorded_before_parsing
        (rev : revision) (b : SummariseBody) (env : Env) (w : World)
        (k txt content : jsstring) (row : License) :
  configured rev env ->
  truthy (licenseKey b) = Some k -> truthy (text b) = Some txt ->
  fst (verifyLicense ServerJs.supabase k env w) = Val (Some row) ->
  relay env = Fetched (Ok (Some content)) ->
  insert_usage_fails env = false ->
  usage (db (snd (handle rev (Summarise b) env w)))
  = usage (db w) ++ [{| license_key := k; usage_created_at := clock env |}]
  /\ licenses (db (snd (handle rev (Summarise b) env w))) = licenses (db w)
  /\ fst (handle rev (Summarise b) env w)
     = Val match JSON.parse (strip_fences content) with
           | Some result => answer 200 (BResult result)
           | None => internal_server_error
           end.
Proof.
  intros C Hk Ht Hv Hr Hu.
  rewrite (summarise_verified rev b env w k txt row C Hk Ht Hv), Hr. cbv zeta.
  destruct (JSON.parse (strip_fences content)); cbn [fst snd];
    unfold record_usage; rewrite Hu; repeat split; reflexivity.
Qed.

Lemma usage_is_recorded_before_parsing_witness :
  usage (db (snd (handle Original (Summarise (Sample.request (lit "page")))
                    Sample.env_talk Sample.world1)))
  = [{| license_key := key Sample.alice;
        usage_created_at := clock Sample.env_talk |}].
Proof.
  refine (proj1 (usage_is_recorded_before_parsing Original
                   (Sample.request (lit "page")) Sample.env_talk
                   Sample.world1 (key Sample.alice) (lit "page")
                   (lit "Here is your summary.") Sample.alice
                   (or_introl eq_refl) eq_refl eq_refl eq_refl eq_refl eq_refl)).
Defined.

Lemma handle_unconfigured (q : request) (env : Env) (w : World) :
  SUPABASE_URL env = false -> reaches_store q = true ->
  handle WithMail q env w
  = (Throw ConfigError,
     match q with Webhook _ => advance 9 w | _ => w end)
  /\ handle WithGuards q env w
     = (Val (answer 500 match q with
                        | Verify _ => BValid false
                        | _ => BError (lit "Internal server error")
                        end),
        match q with Webhook _ => advance 9 w | _ => w end).
Proof.
  intros U R. destruct q as [b|k|[m|ev]]; cbn [reaches_store] in R;
    cbn [handle].
  - unfold Mailing.summarise, Guarded.summarise, try_catch.
    rewrite !(summarise_guarded_unconfigured _ _ env w U).
    destruct (truthy (licenseKey b)); [|discriminate R].
    destruct (truthy (text b)); [|discriminate R]. split; reflexivity.
  - unfold Mailing.verify, Guarded.verify, try_catch.
    rewrite !(verify_body_unconfigured _ env w U).
    destruct (truthy k); [|discriminate R]. split; reflexivity.
  - discriminate R.
  - apply eqb_eq in R. split.
    + apply (handle_checkout_unconfigured WithMail ev env w); trivial.
      discriminate.
    + apply (handle_checkout_unconfigured WithGuards ev env w); trivial.
      discriminate.
Qed.

Lemma handle_short (rev : revision) (q : request) (env : Env) (w : World) :
  reaches_store q = false ->
  exists r, handle rev q env w = (Val r, w)
            /\ (status r = 400 \/ status r = 200).
Proof.
  intros R. destruct q as [b|k|[m|ev]]; cbn [reaches_store] in R.
  - exists missing_input. split; [|now left].
    destruct rev; cbn [handle];
      unfold ServerJs.summarise, Guarded.summarise, Mailing.summarise,
        try_catch, summarise_guarded;
      destruct (truthy (licenseKey b)); try reflexivity;
      destruct (truthy (text b)); try reflexivity; discriminate R.
  - exists (answer 400 (BValid false)). split; [|now left].
    destruct rev; cbn [handle];
      unfold ServerJs.verify, Guarded.verify, Mailing.verify, try_catch,
        verify_body;
      destruct (truthy k); try reflexivity; discriminate R.
  - eexists. split; [apply webhook_bad_signature_is_rejected_aux | now left].
  - exists received. split; [|now right].
    apply webhook_other_event_aux. intros E. rewrite E, eqb_refl in R.
    discriminate R.
Qed.




(** X13. Without the store settings, a request that gets as far as the store
    is left unanswered by the revision that mails (the handler throws), and
    answered 500 by the revision with a try around each handler; neither
    touches the tables or calls anything outside. *)
Theorem missing_store_settings
        (q : request) (env : Env) (w : World) :
  SUPABASE_URL env = false -> reaches_store q = true ->
  fst (handle WithMail q env w) = Throw ConfigError
  /\ (exists body, fst (handle WithGuards q env w) = Val (answer 500 body))
  /\ db (snd (handle WithMail q env w)) = db w
  /\ db (snd (handle WithGuards q env w)) = db w
  /\ added w (snd (handle WithMail q env w)) = []
  /\ added w (snd (handle WithGuards q env w)) = [].
Proof.
  intros U R. destruct (handle_unconfigured q env w U R) as [-> ->].
  cbn [fst snd]. split; [reflexivity|]. split; [eexists; reflexivity|].
  destruct q; cbn [db advance]; repeat split;
    try apply added_same; try apply added_advance.
Qed.

Lemma missing_store_settings_witness :
  fst (handle WithMail (Verify (Some (key Sample.alice)))
         Scenario.env_unconfigured Sample.world1)
  = Throw ConfigError.
Proof.
  apply (proj1 (missing_store_settings (Verify (Some (key Sample.alice)))
                  Scenario.env_unconfigured Sample.world1 eq_refl eq_refl)).
Defined.



(** *** What the normalisation keeps *)

Lemma trimStart_suffix (s : jsstring) : exists pre, s = pre ++ trimStart s.
Proof.
  induction s as [|c s [pre IH]]; [now exists []|]. cbn.
  destruct (is_space c); [|now exists []].
  exists (c :: pre). cbn. now rewrite <- IH.
Qed.

Lemma trimEnd_prefix (s : jsstring) : exists post, s = trimEnd s ++ post.
Proof.
  unfold trimEnd. destruct (trimStart_suffix (rev s)) as [pre E].
  exists (rev pre). rewrite <- rev_app_distr, <- E. now rewrite rev_involutive.
Qed.

Lemma replace_leading_suffix (p s : jsstring) :
  exists pre, s = pre ++ replace_leading p s.
Proof.
  unfold replace_leading.
  destruct (strip_prefix_ci p s) as [rest|] eqn:E; [|now exists []].
  apply strip_prefix_ci_skipn in E. subst rest.
  destruct (trimStart_suffix (skipn (List.length p) s)) as [pre E].
  exists (firstn (List.length p) s ++ pre).
  now rewrite <- app_assoc, <- E, firstn_skipn.
Qed.

Lemma replace_trailing_prefix (s : jsstring) :
  exists post, s = replace_trailing s ++ post.
Proof.
  induction s as [|c s [post IH]]; cbn [replace_trailing].
  - destruct (closes_here []); now exists [].
  - destruct (closes_here (c :: s)); [now exists (c :: s)|].
    exists post. cbn. now rewrite <- IH.
Qed.

(** X15. The normalisation of the content only cuts at the two ends: its
    result is a contiguous part of the content, and has no space at either
    end. Nothing inside is changed. *)
Theorem strip_fences_keeps_a_trimmed_part (content : jsstring) :
  (exists pre post, content = pre ++ strip_fences content ++ post)
  /\ trim (strip_fences content) = strip_fences content
  /\ List.length (strip_fences content) <= List.length content.
Proof.
  assert (P : exists pre post, content = pre ++ strip_fences content ++ post).
  { unfold strip_fences, trim.
    destruct (trimStart_suffix content) as [a Ea].
    destruct (trimEnd_prefix (trimStart content)) as [b Eb].
    set (t := trimEnd (trimStart content)) in *.
    destruct (replace_leading_suffix (fence ++ lit "json") t) as [c Ec].
    set (r1 := replace_leading (fence ++ lit "json") t) in *.
    destruct (replace_leading_suffix fence r1) as [d Ed].
    set (r2 := replace_leading fence r1) in *.
    destruct (replace_trailing_prefix r2) as [e Ee].
    set (r3 := replace_trailing r2) in *.
    destruct (trimStart_suffix r3) as [f Ef].
    destruct (trimEnd_prefix (trimStart r3)) as [g Eg].
    exists (a ++ c ++ d ++ f), (g ++ e ++ b).
    rewrite Ea at 1. rewrite Eb at 1. rewrite Ec at 1. rewrite Ed at 1.
    rewrite Ee at 1. rewrite Ef at 1. rewrite Eg at 1.
    now rewrite <- !app_assoc. }
  split; [exact P|]. split.
  - unfold strip_fences. apply trim_idem.
  - destruct P as (pre & post & E). rewrite E at 2.
    rewrite !length_app. lia.
Qed.



(** *** What each route does to the outside *)

(** X17. A /summarise request does at most three things outside, in this
    order: one lookup of the license, one call to the completion API, one
    insert into [usage]. It draws no random bytes and leaves [licenses] as it
    is, in every revision and whatever the surroundings answer. *)
Theorem summarise_effects_are_bounded
        (rev : revision) (b : SummariseBody) (env : Env) (w : World) :
  let w' := snd (handle rev (Summarise b) env w) in
  (exists k rq u,
      added w w' = []
      \/ added w w' = [ESelectLicense k]
      \/ added w w' = [ESelectLicense k; ERelay rq]
      \/ added w w' = [ESelectLicense k; ERelay rq; EInsertUsage u])
  /\ drawn w' = drawn w
  /\ licenses (db w') = licenses (db w).
Proof.
  cbv zeta.
  assert (O : exists k rq u,
             let w' := snd (ServerJs.summarise b env w) in
             (added w w' = []
              \/ added w w' = [ESelectLicense k]
              \/ added w w' = [ESelectLicense k; ERelay rq]
              \/ added w w' = [ESelectLicense k; ERelay rq; EInsertUsage u])
             /\ drawn w' = drawn w /\ licenses (db w') = licenses (db w)).
  { rewrite summarise_run.
    destruct (truthy (licenseKey b)) as [k|];
      [|exists [], (forwarded env None []), (usage_row env []); cbv zeta;
        cbn [snd]; rewrite added_same; tauto].
    destruct (truthy (text b)) as [txt|];
      [|exists [], (forwarded env None []), (usage_row env []); cbv zeta;
        cbn [snd]; rewrite added_same; tauto].
    exists k, (forwarded env (title b) txt), (usage_row env k). cbv zeta.
    destruct (fst (verifyLicense ServerJs.supabase k env w)) as [[row|]|e];
      try (cbn [snd]; rewrite added_log; cbn; tauto).
    rewrite relay_summary_run. cbv zeta.
    assert (A2 : added w (log (ERelay (forwarded env (title b) txt))
                            (log (ESelectLicense k) w))
                 = [ESelectLicense k; ERelay (forwarded env (title b) txt)]).
    { apply added_app. unfold log. cbn [trace]. now rewrite <- app_assoc. }
    assert (A3 : added w (record_usage env (usage_row env k)
                            (log (ERelay (forwarded env (title b) txt))
                               (log (ESelectLicense k) w)))
                 = [ESelectLicense k; ERelay (forwarded env (title b) txt);
                    EInsertUsage (usage_row env k)]).
    { apply added_app. unfold record_usage, log. cbn [trace].
      now rewrite <- !app_assoc. }
    assert (L3 : licenses (db (record_usage env (usage_row env k)
                            (log (ERelay (forwarded env (title b) txt))
                               (log (ESelectLicense k) w))))
                 = licenses (db w)).
    { unfold record_usage. cbn [db]. now destruct (insert_usage_fails env). }
    destruct (relay env) as [|[[m|]|[content|]]];
      try (cbn [snd]; rewrite A2; cbn; tauto).
    destruct (JSON.parse _); cbn [snd]; rewrite A3, L3; cbn; tauto. }
  destruct (SUPABASE_URL env) eqn:U.
  - rewrite (handle_summarise rev b env w (or_intror U)).
    destruct O as (k & rq & u & H & D & L). split; [|now split].
    now exists k, rq, u.
  - destruct rev.
    + destruct O as (k & rq & u & H & D & L). split; [|now split].
      now exists k, rq, u.
    + destruct (reaches_store (Summarise b)) eqn:R.
      * rewrite (proj2 (handle_unconfigured _ env w U R)). cbn [snd].
        rewrite added_same. split; [|now split].
        exists [], (forwarded env None []), (usage_row env []). tauto.
      * destruct (handle_short WithGuards _ env w R) as (r & -> & _).
        cbn [snd]. rewrite added_same. split; [|now split].
        exists [], (forwarded env None []), (usage_row env []). tauto.
    + destruct (reaches_store (Summarise b)) eqn:R.
      * rewrite (proj1 (handle_unconfigured _ env w U R)). cbn [snd].
        rewrite added_same. split; [|now split].
        exists [], (forwarded env None []), (usage_row env []). tauto.
      * destruct (handle_short WithMail _ env w R) as (r & -> & _).
        cbn [snd]. rewrite added_same. split; [|now split].
        exists [], (forwarded env None []), (usage_row env []). tauto.
Qed.

(** X18. /verify only reads: it makes at most one lookup and leaves both
    tables, and everything else, as they were, in every revision and
    whatever the surroundings answer. *)
Theorem verify_only_reads
        (rev : revision) (k : option jsstring) (env : Env) (w : World) :
  let w' := snd (handle rev (Verify k) env w) in
  db w' = db w
  /\ drawn w' = drawn w
  /\ (added w w' = [] \/ exists k', k = Some k' /\ added w w' = [ESelectLicense k']).
Proof.
  cbv zeta. destruct (reaches_store (Verify k)) eqn:R.
  2:{ destruct (handle_short rev _ env w R) as (r & -> & _). cbn [snd].
      rewrite added_same. tauto. }
  assert (O : let w' := snd (ServerJs.verify k env w) in
              db w' = db w /\ drawn w' = drawn w
              /\ (added w w' = []
                  \/ exists k', k = Some k' /\ added w w' = [ESelectLicense k'])).
  { cbn [reaches_store] in R. destruct k as [[|c k]|]; try discriminate R.
    rewrite verify_run by discriminate. cbv zeta. cbn [snd].
    rewrite added_log. repeat split. right. now exists (c :: k). }
  destruct (SUPABASE_URL env) eqn:U.
  - now rewrite (handle_verify rev k env w (or_intror U)).
  - destruct rev; [exact O| |].
    + rewrite (proj2 (handle_unconfigured _ env w U R)). cbn [snd].
      rewrite added_same. tauto.
    + rewrite (proj1 (handle_unconfigured _ env w U R)). cbn [snd].
      rewrite added_same. tauto.
Qed.

Lemma next_key_format (env : Env) (w : World) :
  is_license_key (next_key env w) = true.
Proof.
  unfold next_key. rewrite generateLicenseKey_run. cbn [fst].
  apply key_shape.
Qed.

(** X19. A completed checkout whose insert succeeds stores exactly one row:
    a well-formed key, the address of the checkout (also when there is
    none), its session id, active, stamped with the current time. The
    answer is [{ received: true }] and [usage] is not touched. *)
Theorem checkout_stores_one_active_row
        (rev : revision) (ev : StripeEvent) (env : Env) (w : World) :
  configured rev env ->
  type ev = checkout_completed ->
  insert_license_fails env = false ->
  key_taken (next_key env w) w = false ->
  let w' := snd (handle rev (Webhook (Verified ev)) env w) in
  fst (handle rev (Webhook (Verified ev)) env w) = Val received
  /\ licenses (db w')
     = licenses (db w)
       ++ [{| key := next_key env w;
              email := customer_email (object ev);
              stripe_session_id := id (object ev);
              active := true;
              created_at := clock env |}]
  /\ is_license_key (next_key env w) = true
  /\ usage (db w') = usage (db w)
  /\ drawn w' = drawn w + 9.
Proof.
  intros C T I K. cbv zeta. rewrite (handle_checkout rev ev env w C T).
  cbv zeta. change (key (issued_license env w ev)) with (next_key env w).
  rewrite I, K. cbn [orb fst snd].
  split; [reflexivity|].
  assert (D : forall w1, db w1 = db (store_license (issued_license env w ev) w)
                         -> drawn w1 = drawn w + 9 ->
              licenses (db w1) = licenses (db w) ++ [issued_license env w ev]
              /\ is_license_key (next_key env w) = true
              /\ usage (db w1) = usage (db w) /\ drawn w1 = drawn w + 9).
  { intros w1 E1 E2. rewrite E1. repeat split; trivial. apply next_key_format. }
  destruct rev; try (apply D; reflexivity).
  unfold mailed. destruct (mailer env); apply D; reflexivity.
Qed.

Lemma checkout_stores_one_active_row_witness :
  fst (handle WithGuards
         (Webhook (Verified {| type := lit "checkout.session.completed";
                               object := {| id := lit "cs_test_4";
                                            customer_email := None |} |}))
         Sample.env0 Sample.world1)
  = Val received.
Proof.
  apply (proj1 (checkout_stores_one_active_row WithGuards
                  {| type := lit "checkout.session.completed";
                     object := {| id := lit "cs_test_4";
                                  customer_email := None |} |}
                  Sample.env0 Sample.world1
                  (or_intror eq_refl) eq_refl eq_refl eq_refl)).
Defined.

(** X20. While the store cannot be queried, /summarise turns every request
    away with 403 INVALID_LICENSE, also one whose key belongs to an active
    License; the completion API is not called and nothing is written. *)
Theorem store_outage_rejects_every_key
        (rev : revision) (b : SummariseBody) (env : Env) (w : World)
        (k txt : jsstring) :
  configured rev env ->
  truthy (licenseKey b) = Some k -> truthy (text b) = Some txt ->
  select_fails env = true ->
  handle rev (Summarise b) env w
  = (Val invalid_license, log (ESelectLicense k) w)
  /\ relay_calls (snd (handle rev (Summarise b) env w)) = relay_calls w.
Proof.
  intros C Hk Ht S.
  rewrite (handle_summarise rev b env w C), summarise_run, Hk, Ht.
  rewrite verifyLicense_run, S. cbn [fst snd]. split; [reflexivity|].
  rewrite relay_calls_log. apply app_nil_r.
Qed.

Lemma store_outage_rejects_every_key_witness :
  fst (handle Original (Summarise (Sample.request (lit "page")))
         Scenario.env_store_down Sample.world1)
  = Val invalid_license.
Proof.
  refine (f_equal fst (proj1 (store_outage_rejects_every_key Original
            (Sample.request (lit "page")) Scenario.env_store_down Sample.world1
            (key Sample.alice) (lit "page")
            (or_introl eq_refl) eq_refl eq_refl eq_refl))).
Defined.
